(** * Local relevance-scoring search of the alumni directory

    A shallow embedding of the search scorer of [js/search.js]
    (class [SearchManager]): term extraction, weighted relevance scoring,
    fuzzy matching on top of a Levenshtein matrix, the ranked local search
    and the bounded result cache.

    Modelling conventions.
    - A JavaScript string is a [string]: a sequence of 8-bit code units (the
      Latin-1 range of UTF-16 code units).  [length] is the number of code
      units, as [String.prototype.length] is.
    - A JavaScript number is an exact rational ([Q]).  Lengths, counts and
      matrix cells, which are integers in the source, are [nat].
    - [undefined] fields of a profile are [None]; a template literal prints
      them as the nine letters "undefined".
    - The [Map] used as cache is an association list in insertion order. *)

From Stdlib Require Import List String Ascii Bool Arith Lia.
From Stdlib Require Import ZArith QArith Qminmax Lqa.
From Stdlib Require Import Sorted Permutation.
Import ListNotations.

Local Close Scope Q_scope.
Local Open Scope string_scope.
Local Open Scope list_scope.
Local Open Scope nat_scope.

(** ** Built-in string operations used by the source *)

Module JsString.

(** Code units that [\s] and [trim] treat as white space. *)
Definition is_space (c : ascii) : bool :=
  let n := nat_of_ascii c in
  ((9 <=? n) && (n <=? 13)) || (n =? 32) || (n =? 160).

(** [toLowerCase] on one code unit: A-Z and the upper-case Latin-1
    letters move 32 places up, everything else stays. *)
Definition lower_char (c : ascii) : ascii :=
  let n := nat_of_ascii c in
  if ((65 <=? n) && (n <=? 90))
     || ((192 <=? n) && (n <=? 222) && negb (n =? 215))
  then ascii_of_nat (n + 32) else c.

Fixpoint toLowerCase (s : string) : string :=
  match s with
  | EmptyString => EmptyString
  | String c s' => String (lower_char c) (toLowerCase s')
  end.

(** [text.includes(pat)]: [pat] occurs in [text] as a substring. *)
Fixpoint includes (text pat : string) : bool :=
  prefix pat text
  || match text with
     | EmptyString => false
     | String _ text' => includes text' pat
     end.

Fixpoint trimStart (s : string) : string :=
  match s with
  | EmptyString => EmptyString
  | String c s' => if is_space c then trimStart s' else s
  end.

Fixpoint trimEnd (s : string) : string :=
  match s with
  | EmptyString => EmptyString
  | String c s' =>
      match trimEnd s' with
      | EmptyString => if is_space c then EmptyString else String c EmptyString
      | t => String c t
      end
  end.

Definition trim (s : string) : string := trimEnd (trimStart s).

(** [s.split(/\s+/)]: the pieces between maximal runs of white space;
    a leading or trailing run leaves an empty piece, as in JavaScript.
    [in_sep] tells that the previous code unit was white space. *)
Fixpoint split_from (in_sep : bool) (s : string) : list string :=
  match s with
  | EmptyString => [EmptyString]
  | String c s' =>
      if is_space c then
        if in_sep then split_from true s'
        else EmptyString :: split_from true s'
      else
        match split_from false s' with
        | tok :: rest => String c tok :: rest
        | [] => [String c EmptyString]
        end
  end.

Definition split_ws (s : string) : list string := split_from false s.

(** [arr.join(sep)] on an array of strings. *)
Fixpoint join (sep : string) (l : list string) : string :=
  match l with
  | [] => EmptyString
  | [x] => x
  | x :: rest => (x ++ sep ++ join sep rest)%string
  end.

(** [s.replace(a, b)] with one-letter strings: only the first
    occurrence is replaced. *)
Fixpoint replace_first (a b : ascii) (s : string) : string :=
  match s with
  | EmptyString => EmptyString
  | String c s' =>
      if Ascii.eqb c a then String b s' else String c (replace_first a b s')
  end.

(** A template literal prints an absent value as "undefined". *)
Definition interpolate (o : option string) : string :=
  match o with
  | Some s => s
  | None => "undefined"
  end.

(** Truthiness of a possibly absent string: absent and "" are falsy. *)
Definition truthy (o : option string) : bool :=
  match o with
  | Some EmptyString => false
  | Some _ => true
  | None => false
  end.

End JsString.

Import JsString.

(** ** Numbers *)

Definition Qnat (n : nat) : Q := inject_Z (Z.of_nat n).

(** [x > y] on numbers, as a test. *)
Definition Qgtb (x y : Q) : bool := negb (Qle_bool x y).

(** [Math.min] with three arguments, on matrix cells. *)
Definition min3 (a b c : nat) : nat := Nat.min a (Nat.min b c).

(** ** Levenshtein matrix ([levenshteinDistance])

    The source fills [matrix[i][j]] for [i] over [str2] (rows) and [j] over
    [str1] (columns).  Row 0 is [0, 1, ..., str1.length]; row [i] starts
    with [i]; every other cell is computed from the cell to its upper left
    ([diag]), the one to its left ([left]) and the one above it ([up]). *)

Module Levenshtein.

Definition chars (s : string) : list ascii := list_ascii_of_string s.

(** Cells 1.. of the row for the code unit [c2] of [str2]: [above] is the
    previous row from the column of [diag] on, [left] the cell just
    written in this row. *)
Fixpoint fill_row (c2 : ascii) (s1 : list ascii) (above : list nat)
         (left : nat) : list nat :=
  match s1, above with
  | c1 :: s1', diag :: ((up :: _) as above') =>
      let cell :=
        if Ascii.eqb c2 c1 then diag
        else min3 (diag + 1) (left + 1) (up + 1) in
      cell :: fill_row c2 s1' above' cell
  | _, _ => []
  end.

(** Row [i]: [matrix[i] = [i]], then the inner loop over [j]. *)
Definition next_row (s1 : list ascii) (i : nat) (c2 : ascii)
           (above : list nat) : list nat :=
  i :: fill_row c2 s1 above i.

(** The outer loop over the code units of [str2], from row [i] on. *)
Fixpoint build_rows (s1 : list ascii) (i : nat) (s2 : list ascii)
         (above : list nat) : list (list nat) :=
  match s2 with
  | [] => []
  | c2 :: s2' =>
      let row := next_row s1 i c2 above in
      row :: build_rows s1 (S i) s2' row
  end.

Definition matrix (str1 str2 : string) : list (list nat) :=
  let row0 := seq 0 (S (String.length str1)) in
  row0 :: build_rows (chars str1) 1 (chars str2) row0.

Definition levenshteinDistance (str1 str2 : string) : nat :=
  nth (String.length str1) (nth (String.length str2) (matrix str1 str2) []) 0.

(** The recurrence the matrix tabulates, on the two prefixes read
    backwards: [cost a b] is the cell whose column prefix is [rev a] and
    whose row prefix is [rev b]. *)
Fixpoint cost (a b : list ascii) {struct a} : nat :=
  match a with
  | [] => List.length b
  | x :: a' =>
      (fix cost_row (b : list ascii) : nat :=
         match b with
         | [] => S (List.length a')
         | y :: b' =>
             if Ascii.eqb y x then cost a' b'
             else min3 (cost a' b' + 1) (cost a' b + 1) (cost_row b' + 1)
         end) b
  end.

(** The cells of one row, from the column of [rev p] rightwards. *)
Fixpoint cells (p rest q : list ascii) : list nat :=
  match rest with
  | [] => [cost p q]
  | x :: rest' => cost p q :: cells (x :: p) rest' q
  end.

End Levenshtein.

Import Levenshtein.

(** ** String similarity and fuzzy matching *)

(** The two [const]s at the head of [stringSimilarity]. *)
Definition pick_longer (str1 str2 : string) : string :=
  if String.length str2 <? String.length str1 then str1 else str2.

Definition pick_shorter (str1 str2 : string) : string :=
  if String.length str2 <? String.length str1 then str2 else str1.

Definition stringSimilarity (str1 str2 : string) : Q :=
  let longer := pick_longer str1 str2 in
  let shorter := pick_shorter str1 str2 in
  if String.length longer =? 0 then 1%Q
  else
    let distance := levenshteinDistance longer shorter in
    ((Qnat (String.length longer) - Qnat distance)
     / Qnat (String.length longer))%Q.

(** [fuzzyMatch]: the loop body, then the loop as a fold over the
    keywords with the accumulator [matches]. *)
Definition fuzzy_step (text : string) (matches : Q) (keyword : string) : Q :=
  if includes text keyword then (matches + 1)%Q
  else
    let similarity := stringSimilarity text keyword in
    if Qgtb similarity 0.7%Q then (matches + similarity)%Q else matches.

Definition fuzzyMatch (text : string) (keywords : list string) : Q :=
  if (String.length text =? 0) || (List.length keywords =? 0) then 0%Q
  else
    let matches := fold_left (fuzzy_step text) keywords 0%Q in
    Qmin (matches / Qnat (List.length keywords)) 1.

(** [fuzzyMatch] as the specification words it, to be compared with the
    definition above: a point per keyword contained verbatim, else the
    similarity 1 - distance / longer length when it exceeds 0.7; the mean
    of the points, capped at 1; 0 for no keyword or no text. *)
Module FuzzySpec.

Definition similarity (text keyword : string) : Q :=
  (1 - Qnat (levenshteinDistance text keyword)
       / Qnat (Nat.max (String.length text) (String.length keyword)))%Q.

Definition point (text keyword : string) : Q :=
  if includes text keyword then 1%Q
  else if Qgtb (similarity text keyword) 0.7%Q then similarity text keyword
  else 0%Q.

Fixpoint points (text : string) (keywords : list string) : Q :=
  match keywords with
  | [] => 0%Q
  | keyword :: rest => (point text keyword + points text rest)%Q
  end.

Definition fuzzyMatch (text : string) (keywords : list string) : Q :=
  match text, keywords with
  | EmptyString, _ => 0%Q
  | _, [] => 0%Q
  | _, _ => Qmin (points text keywords / Qnat (List.length keywords)) 1
  end.

End FuzzySpec.

(** ** Search terms ([extractSearchTerms]) *)

Record SearchTerms := {
  keywords : list string;
  industries : list string;
  roles : list string;
  locations : list string;
  goals : list string;
  experience : list string;
  matchedIndustries : list string;
  matchedRoles : list string;
  matchedLocations : list string;
  matchedGoals : list string;
  matchedExperience : list string
}.

Definition industry_vocabulary : list string :=
  ["technology"; "finance"; "healthcare"; "education"; "consulting";
   "marketing"; "real-estate"; "nonprofit"].

Definition role_vocabulary : list string :=
  ["founder"; "ceo"; "manager"; "director"; "engineer"; "consultant";
   "analyst"; "designer"].

Definition location_vocabulary : list string :=
  ["san francisco"; "new york"; "london"; "toronto"; "singapore"; "tokyo"].

Definition goal_vocabulary : list string :=
  ["mentorship"; "partnerships"; "job opportunities"; "advice";
   "connections"].

Definition experience_vocabulary : list string :=
  ["junior"; "mid"; "senior"; "entry level"; "experienced"].

Definition extractSearchTerms (query : string) : SearchTerms :=
  let normalizedQuery := toLowerCase query in
  {| keywords :=
       filter (fun word => 2 <? String.length word) (split_ws normalizedQuery);
     industries := industry_vocabulary;
     roles := role_vocabulary;
     locations := location_vocabulary;
     goals := goal_vocabulary;
     experience := experience_vocabulary;
     matchedIndustries :=
       filter (fun industry =>
                 includes normalizedQuery industry
                 || includes normalizedQuery
                      (replace_first "-"%char " "%char industry))
              industry_vocabulary;
     matchedRoles :=
       filter (fun role => includes normalizedQuery role) role_vocabulary;
     matchedLocations :=
       filter (fun location => includes normalizedQuery location)
              location_vocabulary;
     matchedGoals :=
       filter (fun goal => includes normalizedQuery goal) goal_vocabulary;
     matchedExperience :=
       filter (fun exp => includes normalizedQuery exp) experience_vocabulary
  |}.

(** ** Profiles

    Only the fields the scorer reads.  Every group and every field may be
    absent. *)

Record Location := {
  city : option string;
  country : option string
}.

Record Personal := {
  name : option string;
  location : option Location
}.

Record Professional := {
  current_role : option string;
  company : option string;
  industry : option string;
  expertise_tags : option (list string)
}.

Record Networking := {
  net_goals : option (list string);
  net_offering : option (list string)
}.

Record Alumni := {
  alumni_id : string;
  personal : option Personal;
  professional : option Professional;
  networking : option Networking
}.

(** [alumni.personal || {}] and its two siblings. *)
Definition no_personal : Personal := {| name := None; location := None |}.
Definition no_professional : Professional :=
  {| current_role := None; company := None; industry := None;
     expertise_tags := None |}.
Definition no_networking : Networking :=
  {| net_goals := None; net_offering := None |}.

Definition or_empty {A : Type} (o : option A) (empty : A) : A :=
  match o with
  | Some x => x
  | None => empty
  end.

(** ** Relevance score ([calculateRelevanceScore]) *)

Module Weights.
Definition name : Q := 0.3.
Definition role : Q := 0.25.
Definition company : Q := 0.2.
Definition industry : Q := 0.15.
Definition expertise : Q := 0.2.
Definition location : Q := 0.1.
Definition networking : Q := 0.15.
Definition exact : Q := 0.5.
End Weights.

(** The text searched for the whole query: five template holes. *)
Definition fullText (personal : Personal) (professional : Professional) : string :=
  toLowerCase
    (interpolate (name personal) ++ " "
     ++ interpolate (current_role professional) ++ " "
     ++ interpolate (company professional) ++ " "
     ++ interpolate (industry professional) ++ " "
     ++ interpolate (match location personal with
                     | Some l => city l
                     | None => None
                     end))%string.

(** One definition per [if] block of the source; each takes the running
    [score] and returns the updated one. *)

Definition score_exact (personal : Personal) (professional : Professional)
           (originalQuery : string) (score : Q) : Q :=
  if includes (fullText personal professional) (toLowerCase originalQuery)
  then (score + Weights.exact)%Q else score.

Definition score_name (personal : Personal) (searchTerms : SearchTerms)
           (score : Q) : Q :=
  if truthy (name personal) then
    let nameMatch :=
      fuzzyMatch (toLowerCase (interpolate (name personal)))
                 (keywords searchTerms) in
    (score + nameMatch * Weights.name)%Q
  else score.

Definition score_role (professional : Professional)
           (searchTerms : SearchTerms) (score : Q) : Q :=
  if truthy (current_role professional) then
    let role_text := toLowerCase (interpolate (current_role professional)) in
    let roleMatch := fuzzyMatch role_text (keywords searchTerms) in
    let score := (score + roleMatch * Weights.role)%Q in
    if existsb (fun role => includes role_text role) (matchedRoles searchTerms)
    then (score + Weights.role * 0.5)%Q else score
  else score.

Definition score_company (professional : Professional)
           (searchTerms : SearchTerms) (score : Q) : Q :=
  if truthy (company professional) then
    let companyMatch :=
      fuzzyMatch (toLowerCase (interpolate (company professional)))
                 (keywords searchTerms) in
    (score + companyMatch * Weights.company)%Q
  else score.

Definition score_industry (professional : Professional)
           (searchTerms : SearchTerms) (score : Q) : Q :=
  if truthy (industry professional) then
    if existsb (String.eqb (interpolate (industry professional)))
               (matchedIndustries searchTerms)
    then (score + Weights.industry)%Q else score
  else score.

Definition score_expertise (professional : Professional)
           (searchTerms : SearchTerms) (score : Q) : Q :=
  match expertise_tags professional with
  | Some tags =>
      let expertiseText := toLowerCase (join " " tags) in
      let expertiseMatch := fuzzyMatch expertiseText (keywords searchTerms) in
      (score + expertiseMatch * Weights.expertise)%Q
  | None => score
  end.

Definition score_location (personal : Personal) (searchTerms : SearchTerms)
           (score : Q) : Q :=
  match location personal with
  | Some l =>
      let locationText :=
        toLowerCase (interpolate (city l) ++ " " ++ interpolate (country l))%string in
      if existsb (fun loc => includes locationText loc)
                 (matchedLocations searchTerms)
      then (score + Weights.location)%Q else score
  | None => score
  end.

Definition score_networking (networking : Networking)
           (searchTerms : SearchTerms) (score : Q) : Q :=
  match net_goals networking, net_offering networking with
  | None, None => score
  | g, o =>
      let networkingText :=
        toLowerCase (join " " (or_empty g [] ++ or_empty o [])) in
      if existsb (fun goal => includes networkingText goal)
                 (matchedGoals searchTerms)
      then (score + Weights.networking)%Q else score
  end.

(** The sum of the triggered weights, before the cap. *)
Definition rawScore (alumni : Alumni) (searchTerms : SearchTerms)
           (originalQuery : string) : Q :=
  let personal := or_empty (personal alumni) no_personal in
  let professional := or_empty (professional alumni) no_professional in
  let networking := or_empty (networking alumni) no_networking in
  let score := 0%Q in
  let score := score_exact personal professional originalQuery score in
  let score := score_name personal searchTerms score in
  let score := score_role professional searchTerms score in
  let score := score_company professional searchTerms score in
  let score := score_industry professional searchTerms score in
  let score := score_expertise professional searchTerms score in
  let score := score_location personal searchTerms score in
  let score := score_networking networking searchTerms score in
  score.

Definition calculateRelevanceScore (alumni : Alumni)
           (searchTerms : SearchTerms) (originalQuery : string) : Q :=
  Qmin (rawScore alumni searchTerms originalQuery) 1.

(** ** Ranked local search ([performLocalSearch]) *)

Record ScoredResult := {
  profile : Alumni;
  searchRelevance : Q;
  searchQuery : string
}.

(** [Array.prototype.sort(compareFn)].  The language fixes the result for
    a consistent comparator: the elements in the order of [compareFn],
    elements that compare equal in their original order.  Insertion from
    the right computes it: an element goes in front of the first one it
    does not compare greater than. *)
Section ArraySort.

Context {A : Type}.
Variable compareFn : A -> A -> Q.

Fixpoint insert (x : A) (l : list A) : list A :=
  match l with
  | [] => [x]
  | y :: l' =>
      if Qle_bool (compareFn x y) 0 then x :: y :: l' else y :: insert x l'
  end.

Fixpoint sort (l : list A) : list A :=
  match l with
  | [] => []
  | x :: l' => insert x (sort l')
  end.

End ArraySort.

(** The comparator of the source: [b.searchRelevance - a.searchRelevance]. *)
Definition byRelevanceDesc (a b : ScoredResult) : Q :=
  (searchRelevance b - searchRelevance a)%Q.

(** The body of the [forEach]: push the profile when it scores above 0.1. *)
Definition collect (searchTerms : SearchTerms) (query : string)
           (results : list ScoredResult) (alumni : Alumni) : list ScoredResult :=
  let relevanceScore := calculateRelevanceScore alumni searchTerms query in
  if Qgtb relevanceScore 0.1%Q then
    results ++ [{| profile := alumni;
                   searchRelevance := relevanceScore;
                   searchQuery := query |}]
  else results.

Definition performLocalSearch (alumniData : list Alumni) (query : string)
  : list ScoredResult :=
  let searchTerms := extractSearchTerms query in
  let results := fold_left (collect searchTerms query) alumniData [] in
  sort byRelevanceDesc results.

(** ** The result cache ([searchCache], [cacheSearchResults]) *)

(** A [Map] from strings: the entries in insertion order. *)
Module JsMap.

Definition t (V : Type) : Type := list (string * V).

Definition has {V} (m : t V) (k : string) : bool :=
  existsb (fun e => String.eqb (fst e) k) m.

Definition get {V} (m : t V) (k : string) : option V :=
  option_map snd (find (fun e => String.eqb (fst e) k) m).

Definition size {V} (m : t V) : nat := List.length m.

(** [m.keys().next().value] *)
Definition first_key {V} (m : t V) : option string :=
  match m with
  | [] => None
  | e :: _ => Some (fst e)
  end.

Definition delete {V} (m : t V) (k : string) : t V :=
  filter (fun e => negb (String.eqb (fst e) k)) m.

(** [m.set(k, v)]: a key already present keeps its place, a new one
    goes last. *)
Fixpoint set {V} (m : t V) (k : string) (v : V) : t V :=
  match m with
  | [] => [(k, v)]
  | e :: m' =>
      if String.eqb (fst e) k then (k, v) :: m' else e :: set m' k v
  end.

Definition keys {V} (m : t V) : list string := map fst m.

End JsMap.

(** The part of the manager the search reads and writes; [alumniData] is
    [this.app.alumniData]. *)
Record SearchManager := {
  alumniData : list Alumni;
  searchCache : JsMap.t (list ScoredResult);
  maxCacheSize : nat
}.

Definition constructor (data : list Alumni) : SearchManager :=
  {| alumniData := data; searchCache := []; maxCacheSize := 100 |}.

Definition cacheSearchResults (this : SearchManager) (query : string)
           (results : list ScoredResult) : SearchManager :=
  let cache := searchCache this in
  let cache :=
    if maxCacheSize this <=? JsMap.size cache then
      match JsMap.first_key cache with
      | Some firstKey => JsMap.delete cache firstKey
      | None => cache
      end
    else cache in
  {| alumniData := alumniData this;
     searchCache := JsMap.set cache query results;
     maxCacheSize := maxCacheSize this |}.

(** ** [performSearch]

    The manager is built with [useAI = false] and no API key, so the
    search proper is always [performLocalSearch].  What a call shows is
    recorded as its outcome: the search was cleared, or a result list was
    displayed, either taken from the cache or computed by this call. *)

Inductive Outcome :=
| Cleared
| Displayed (results : list ScoredResult) (computed : bool).

Definition normalize (query : string) : string := toLowerCase (trim query).

Definition performSearch (this : SearchManager) (query : string)
  : SearchManager * Outcome :=
  if String.length (trim query) =? 0 then (this, Cleared)
  else
    let normalizedQuery := normalize query in
    if JsMap.has (searchCache this) normalizedQuery then
      match JsMap.get (searchCache this) normalizedQuery with
      | Some cachedResults => (this, Displayed cachedResults false)
      | None => (this, Displayed [] false)
      end
    else
      let results := performLocalSearch (alumniData this) query in
      (cacheSearchResults this normalizedQuery results,
       Displayed results true).

(** What an outcome shows, and whether the call ran the search. *)
Definition displayed (out : Outcome) : option (list ScoredResult) :=
  match out with
  | Cleared => None
  | Displayed results _ => Some results
  end.

Definition recomputed (out : Outcome) : bool :=
  match out with
  | Cleared => false
  | Displayed _ computed => computed
  end.

(** A session: one search after the other. *)
Definition run (this : SearchManager) (queries : list string) : SearchManager :=
  fold_left (fun st q => fst (performSearch st q)) queries this.

(** ** Sessions *)

(** The manager a miss leaves: the computed result is cached under the
    normalized query. *)
Definition after_miss (this : SearchManager) (query : string) : SearchManager :=
  cacheSearchResults this (normalize query)
                     (performLocalSearch (alumniData this) query).

(** What every manager reached from [constructor data] satisfies: the
    profile list and the capacity are those of the constructor, the cache
    is within the capacity, and its keys are distinct and not empty. *)
Definition reached (data : list Alumni) (this : SearchManager) : Prop :=
  alumniData this = data
  /\ maxCacheSize this = 100
  /\ JsMap.size (searchCache this) <= 100
  /\ NoDup (JsMap.keys (searchCache this))
  /\ ~ In "" (JsMap.keys (searchCache this)).

(** A query [performSearch] does not take for a request to clear. *)
Definition nonblank (query : string) : Prop := String.length (trim query) <> 0.

(** No string occurs twice. *)
Fixpoint distinctb (l : list string) : bool :=
  match l with
  | [] => true
  | x :: l' => negb (existsb (String.eqb x) l') && distinctb l'
  end.

(** Sample data: queries "q", "qa", "qaa", ... and the first profile of
    the built-in fallback data. *)
Fixpoint letters (n : nat) : string :=
  match n with
  | 0 => ""
  | S n' => String "a" (letters n')
  end.

Definition sample_queries (n : nat) : list string :=
  map (fun i => String "q" (letters i)) (seq 0 n).

Definition sarah : Alumni :=
  {| alumni_id := "demo_001";
     personal :=
       Some {| name := Some "Sarah Chen";
               location := Some {| city := Some "San Francisco";
                                   country := Some "USA" |} |};
     professional :=
       Some {| current_role := Some "Product Manager";
               company := Some "TechCorp Inc.";
               industry := Some "technology";
               expertise_tags := Some ["product"; "strategy"; "AI"] |};
     networking :=
       Some {| net_goals := Some ["mentorship"; "partnerships"];
               net_offering := Some ["advice"; "connections"] |} |}.

(** A profile of which only the role is known. *)
Definition founder_only : Alumni :=
  {| alumni_id := "demo_founder";
     personal := None;
     professional :=
       Some {| current_role := Some "Founder & CEO"; company := None;
               industry := None; expertise_tags := None |};
     networking := None |}.

(** A profile without any group. *)
Definition bare_profile (id : string) : Alumni :=
  {| alumni_id := id; personal := None; professional := None;
     networking := None |}.

(** * Further functions of the search manager and its callers *)

(** ** The fallback search of the application ([performBasicSearch],
    js/main.js) *)

(** [alumni.personal?.name] and the like: an absent group gives an absent
    field. *)
Definition field_of {G A : Type} (group : option G) (field : G -> option A)
  : option A :=
  match group with
  | Some g => field g
  | None => None
  end.

Definition basicSearchText (alumni : Alumni) : string :=
  toLowerCase
    (interpolate (field_of (personal alumni) name) ++ " "
     ++ interpolate (field_of (professional alumni) current_role) ++ " "
     ++ interpolate (field_of (professional alumni) company))%string.

Definition performBasicSearch (alumniData : list Alumni) (query : string)
  : list Alumni :=
  if String.length (trim query) =? 0 then alumniData
  else
    filter (fun alumni =>
              includes (basicSearchText alumni) (toLowerCase query))
           alumniData.

(** ** Search history ([addToSearchHistory], [getHistorySuggestions]) *)

Module History.

Record entry := {
  query : string;
  resultCount : nat;
  timestamp : nat
}.

End History.

(** [now] is the value of [Date.now()]; saving to local storage leaves
    the history as it is. *)
Definition addToSearchHistory (searchHistory : list History.entry)
           (query : string) (resultCount : nat) (now : nat)
  : list History.entry :=
  let entry :=
    {| History.query := query; History.resultCount := resultCount;
       History.timestamp := now |} in
  let searchHistory :=
    filter (fun item => negb (String.eqb (History.query item) query))
           searchHistory in
  let searchHistory := entry :: searchHistory in
  if 20 <? List.length searchHistory then firstn 20 searchHistory
  else searchHistory.

(** The icon of a history suggestion is a fixed pictograph (a clock). *)
Inductive Icon := IconClock.

Module Suggestion.

Record t := {
  text : string;
  type : string;
  icon : Icon
}.

End Suggestion.

Definition getHistorySuggestions (searchHistory : list History.entry)
           (query : string) : list Suggestion.t :=
  let queryLower := toLowerCase query in
  firstn 3
    (map (fun item =>
            {| Suggestion.text := History.query item;
               Suggestion.type := "history";
               Suggestion.icon := IconClock |})
         (filter (fun item =>
                    includes (toLowerCase (History.query item)) queryLower)
                 searchHistory)).

(** ** [performSearch] with the history

    The whole of [performSearch]: besides the cache it appends to the
    search history, unless the call is a live search. *)

Record Session := {
  manager : SearchManager;
  searchHistory : list History.entry
}.

Definition performSearchLogged (this : Session) (query : string)
           (isLiveSearch : bool) (now : nat) : Session * Outcome :=
  if String.length (trim query) =? 0 then (this, Cleared)
  else
    let normalizedQuery := normalize query in
    if JsMap.has (searchCache (manager this)) normalizedQuery then
      match JsMap.get (searchCache (manager this)) normalizedQuery with
      | Some cachedResults => (this, Displayed cachedResults false)
      | None => (this, Displayed [] false)
      end
    else
      let results := performLocalSearch (alumniData (manager this)) query in
      let manager' := cacheSearchResults (manager this) normalizedQuery results in
      let history :=
        if isLiveSearch then searchHistory this
        else addToSearchHistory (searchHistory this) query
                                (List.length results) now in
      ({| manager := manager'; searchHistory := history |},
       Displayed results true).

(** A session of [performSearchLogged] calls: each with its query, its
    live-search flag and the clock reading. *)
Definition runLogged (this : Session) (calls : list (string * bool * nat))
  : Session :=
  fold_left (fun st call =>
               match call with
               | (query, isLiveSearch, now) =>
                   fst (performSearchLogged st query isLiveSearch now)
               end)
            calls this.

(** ** Ranking of an AI answer ([parseAISearchResults])

    [ids] is the parsed answer: [None] when [JSON.parse] throws or the
    value is not an array, else the strings of the array. *)

(** The [map] with its index, from [index] on. *)
Fixpoint rank_from (index : nat) (results : list Alumni) (query : string)
  : list ScoredResult :=
  match results with
  | [] => []
  | alumni :: rest =>
      {| profile := alumni;
         searchRelevance := Qmax (0.9 - Qnat index * 0.1) 0.1;
         searchQuery := query |}
      :: rank_from (S index) rest query
  end.

Definition parseAISearchResults (alumniData : list Alumni)
           (ids : option (list string)) (query : string) : list ScoredResult :=
  match ids with
  | Some ids =>
      let results :=
        filter (fun alumni =>
                  existsb (fun id => String.eqb id (alumni_id alumni)) ids)
               alumniData in
      rank_from 0 results query
  | None => performLocalSearch alumniData query
  end.

(** ** Keyboard navigation of the suggestions ([handleSearchKeydown],
    [updateSuggestionSelection], [selectSuggestion])

    [suggestions] lists, for each rendered suggestion item, the text
    content of its [.suggestion-text] element.  The outcome of a key is
    the new [selectedSuggestionIndex], the text handed to [performSearch]
    if any, and whether the handler ended in a [TypeError] for reading an
    item that is not in the list. *)

Inductive Key := ArrowDown | ArrowUp | Enter | Escape | OtherKey.

Record KeyOutcome := {
  selectedSuggestionIndex : Z;
  searched : option string;
  threw : bool
}.

(** [suggestions[index]] *)
Definition item_at (suggestions : list (option string)) (index : Z)
  : option (option string) :=
  if (index <? 0)%Z then None else nth_error suggestions (Z.to_nat index).

Definition updateSuggestionSelection (suggestions : list (option string))
           (index : Z) : KeyOutcome :=
  if (0 <=? index)%Z then
    match item_at suggestions index with
    | Some _ =>
        {| selectedSuggestionIndex := index; searched := None;
           threw := false |}
    | None =>
        {| selectedSuggestionIndex := index; searched := None;
           threw := true |}
    end
  else
    {| selectedSuggestionIndex := index; searched := None; threw := false |}.

Definition selectSuggestion (index : Z)
           (suggestionElement : option (option string)) : KeyOutcome :=
  match suggestionElement with
  | None =>
      {| selectedSuggestionIndex := index; searched := None; threw := true |}
  | Some text =>
      if truthy text then
        {| selectedSuggestionIndex := (-1)%Z; searched := text;
           threw := false |}
      else
        {| selectedSuggestionIndex := index; searched := None;
           threw := false |}
  end.

Definition handleSearchKeydown (index : Z)
           (suggestions : list (option string)) (key : Key) : KeyOutcome :=
  let unchanged :=
    {| selectedSuggestionIndex := index; searched := None; threw := false |} in
  let length := Z.of_nat (List.length suggestions) in
  if (length =? 0)%Z then unchanged
  else
    match key with
    | ArrowDown =>
        updateSuggestionSelection suggestions
                                  (Z.min (index + 1) (length - 1))
    | ArrowUp =>
        updateSuggestionSelection suggestions (Z.max (index - 1) (-1))
    | Enter =>
        if (0 <=? index)%Z
        then selectSuggestion index (item_at suggestions index)
        else unchanged
    | Escape =>
        {| selectedSuggestionIndex := (-1)%Z; searched := None;
           threw := false |}
    | OtherKey => unchanged
    end.

(** ** Predicates used in the statements *)

(** A string without white space. *)
Fixpoint spaceless (s : string) : bool :=
  match s with
  | EmptyString => true
  | String c s' => negb (is_space c) && spaceless s'
  end.

(** * Properties *)

(** ** The definitions on small inputs *)

Example split_ws_keeps_empty_ends :
  split_ws " a  b " = [""; "a"; "b"; ""].
Proof. reflexivity. Qed.

Example trim_lower_example : normalize "  Sarah Chen " = "sarah chen".
Proof. reflexivity. Qed.

Example matrix_example : matrix "ab" "b" = [[0; 1; 2]; [1; 1; 1]].
Proof. reflexivity. Qed.

Example levenshteinDistance_example :
  levenshteinDistance "kitten" "sitting" = 3.
Proof. reflexivity. Qed.

Example stringSimilarity_example :
  (stringSimilarity "kitten" "sitting" == 4 # 7)%Q.
Proof. vm_compute. reflexivity. Qed.

Example keywords_example :
  keywords (extractSearchTerms " A of  Founder real estate")
  = ["founder"; "real"; "estate"]
  /\ matchedIndustries (extractSearchTerms " A of  Founder real estate")
     = ["real-estate"].
Proof. split; reflexivity. Qed.

Example score_example :
  (calculateRelevanceScore sarah (extractSearchTerms "technology")
                           "technology" == 0.65)%Q.
Proof. vm_compute. reflexivity. Qed.

(** ** The Levenshtein matrix *)

Section LevenshteinFacts.

Lemma cost_nil_r (a : list ascii) : cost a [] = List.length a.
Proof. destruct a; reflexivity. Qed.

Lemma cost_cons (x y : ascii) (a b : list ascii) :
  cost (x :: a) (y :: b) =
  if Ascii.eqb y x then cost a b
  else min3 (cost a b + 1) (cost a (y :: b) + 1) (cost (x :: a) b + 1).
Proof. reflexivity. Qed.

Lemma cost_sym (a b : list ascii) : cost a b = cost b a.
Proof.
  revert b; induction a as [|x a IHa]; intros b.
  - now rewrite cost_nil_r.
  - induction b as [|y b IHb].
    + reflexivity.
    + rewrite !cost_cons, (Ascii.eqb_sym x y).
      destruct (Ascii.eqb y x).
      * apply IHa.
      * rewrite IHb, (IHa b), (IHa (y :: b)). unfold min3. lia.
Qed.

Lemma cost_upper (a b : list ascii) :
  cost a b <= Nat.max (List.length a) (List.length b).
Proof.
  revert b; induction a as [|x a IHa]; intros b.
  - simpl. lia.
  - induction b as [|y b IHb].
    + simpl. lia.
    + rewrite cost_cons. specialize (IHa b).
      destruct (Ascii.eqb y x); unfold min3; simpl List.length in *; lia.
Qed.

Lemma cost_lower (a b : list ascii) :
  List.length a <= cost a b + List.length b
  /\ List.length b <= cost a b + List.length a.
Proof.
  revert b; induction a as [|x a IHa]; intros b.
  - simpl. lia.
  - induction b as [|y b IHb].
    + simpl. lia.
    + rewrite cost_cons.
      pose proof (IHa b) as Hd. pose proof (IHa (y :: b)) as Hl.
      destruct (Ascii.eqb y x); unfold min3; simpl List.length in *; lia.
Qed.

Lemma cells_head (p rest q : list ascii) :
  cells p rest q = cost p q :: tl (cells p rest q).
Proof. destruct rest; reflexivity. Qed.

Lemma cells_row0 (p rest : list ascii) :
  cells p rest [] = seq (List.length p) (S (List.length rest)).
Proof.
  revert p; induction rest as [|x rest IH]; intros p.
  - simpl. now rewrite cost_nil_r.
  - cbn [cells List.length]. rewrite IH, cost_nil_r. reflexivity.
Qed.

Lemma fill_row_cells (c2 : ascii) (rest p q : list ascii) :
  fill_row c2 rest (cells p rest q) (cost p (c2 :: q)) =
  tl (cells p rest (c2 :: q)).
Proof.
  revert p; induction rest as [|x rest IH]; intros p.
  - reflexivity.
  - cbn [cells tl]. rewrite (cells_head (x :: p) rest q).
    cbn [fill_row]. rewrite <- (cost_cons x c2 p q).
    rewrite <- cells_head, IH, <- cells_head. reflexivity.
Qed.

Lemma next_row_cells (s1 q : list ascii) (c2 : ascii) :
  next_row s1 (S (List.length q)) c2 (cells [] s1 q) = cells [] s1 (c2 :: q).
Proof.
  unfold next_row.
  change (S (List.length q)) with (cost [] (c2 :: q)).
  rewrite fill_row_cells, <- cells_head. reflexivity.
Qed.

Lemma build_rows_last (s1 s2 q : list ascii) :
  nth (List.length s2)
      (cells [] s1 q :: build_rows s1 (S (List.length q)) s2 (cells [] s1 q))
      [] =
  cells [] s1 (rev s2 ++ q).
Proof.
  revert q; induction s2 as [|c2 s2 IH]; intros q.
  - reflexivity.
  - cbn [List.length nth build_rows rev]. rewrite next_row_cells.
    rewrite <- app_assoc. apply (IH (c2 :: q)).
Qed.

Lemma cells_last (p rest q : list ascii) :
  nth (List.length rest) (cells p rest q) 0 = cost (rev rest ++ p) q.
Proof.
  revert p; induction rest as [|x rest IH]; intros p.
  - reflexivity.
  - cbn [List.length cells nth]. rewrite IH. cbn [rev].
    now rewrite <- app_assoc.
Qed.

Lemma length_chars (s : string) : List.length (chars s) = String.length s.
Proof. induction s; simpl; congruence. Qed.

(** The cell the source returns is the recurrence at the two whole
    strings. *)
Lemma levenshteinDistance_cost (str1 str2 : string) :
  levenshteinDistance str1 str2 = cost (rev (chars str1)) (rev (chars str2)).
Proof.
  unfold levenshteinDistance, matrix.
  rewrite <- !length_chars.
  pose proof (cells_row0 [] (chars str1)) as Hrow0.
  cbn [List.length] in Hrow0. rewrite <- Hrow0.
  pose proof (build_rows_last (chars str1) (chars str2) []) as Hlast.
  cbn [List.length] in Hlast. rewrite Hlast.
  rewrite cells_last, !app_nil_r. reflexivity.
Qed.

Lemma levenshteinDistance_upper (a b : string) :
  levenshteinDistance a b <= Nat.max (String.length a) (String.length b).
Proof.
  rewrite levenshteinDistance_cost, <- !length_chars.
  rewrite <- (length_rev (chars a)), <- (length_rev (chars b)).
  apply cost_upper.
Qed.

Lemma levenshteinDistance_lower (a b : string) :
  String.length a - String.length b <= levenshteinDistance a b
  /\ String.length b - String.length a <= levenshteinDistance a b.
Proof.
  rewrite levenshteinDistance_cost, <- !length_chars.
  rewrite <- (length_rev (chars a)), <- (length_rev (chars b)).
  pose proof (cost_lower (rev (chars a)) (rev (chars b))). lia.
Qed.

End LevenshteinFacts.

(** C9. The Levenshtein distance is symmetric: for all strings [a] and
    [b], [levenshteinDistance a b] equals [levenshteinDistance b a]. *)
Theorem levenshteinDistance_symmetric (a b : string) :
  levenshteinDistance a b = levenshteinDistance b a.
Proof.
  rewrite !levenshteinDistance_cost. apply cost_sym.
Qed.

(** ** Numbers *)

Section NumberFacts.

Lemma Qnat_nonneg (n : nat) : (0 <= Qnat n)%Q.
Proof.
  unfold Qnat. change 0%Q with (inject_Z 0). rewrite <- Zle_Qle. lia.
Qed.

Lemma Qnat_pos (n : nat) : 0 < n -> (0 < Qnat n)%Q.
Proof.
  intros H. unfold Qnat. change 0%Q with (inject_Z 0).
  rewrite <- Zlt_Qlt. lia.
Qed.

Lemma Qnat_le (m n : nat) : m <= n -> (Qnat m <= Qnat n)%Q.
Proof. intros H. unfold Qnat. rewrite <- Zle_Qle. lia. Qed.

Lemma Qgtb_true (x y : Q) : Qgtb x y = true <-> (y < x)%Q.
Proof.
  unfold Qgtb. rewrite negb_true_iff, <- not_true_iff_false, Qle_bool_iff.
  split; [apply Qnot_le_lt | apply Qlt_not_le].
Qed.

Lemma Qgtb_false (x y : Q) : Qgtb x y = false <-> (x <= y)%Q.
Proof.
  unfold Qgtb. rewrite negb_false_iff. apply Qle_bool_iff.
Qed.

Lemma Qgtb_compat (x x' y y' : Q) :
  (x == x')%Q -> (y == y')%Q -> Qgtb x y = Qgtb x' y'.
Proof.
  intros Hx Hy.
  destruct (Qgtb x y) eqn:E, (Qgtb x' y') eqn:E'; try reflexivity.
  - apply Qgtb_true in E. apply Qgtb_false in E'. lra.
  - apply Qgtb_false in E. apply Qgtb_true in E'. lra.
Qed.

Lemma Qmin_unit (x : Q) : (0 <= x)%Q -> (0 <= Qmin x 1 <= 1)%Q.
Proof.
  intros H. split.
  - apply Q.min_glb; lra.
  - apply Q.le_min_r.
Qed.

Lemma Qmin_compat_l (x y z : Q) : (x == y)%Q -> (Qmin x z == Qmin y z)%Q.
Proof.
  intros H.
  destruct (Q.min_spec x z) as [[? ->]|[? ->]],
           (Q.min_spec y z) as [[? ->]|[? ->]]; lra.
Qed.

(** The quotient of [stringSimilarity], for a distance within the
    longer length. *)
Lemma ratio_unit (len distance : nat) :
  0 < len -> distance <= len ->
  (0 <= (Qnat len - Qnat distance) / Qnat len <= 1)%Q.
Proof.
  intros Hlen Hd.
  pose proof (Qnat_pos len Hlen). pose proof (Qnat_le _ _ Hd).
  pose proof (Qnat_nonneg distance).
  split.
  - apply Qle_shift_div_l; [assumption | lra].
  - apply Qle_shift_div_r; [assumption | lra].
Qed.

End NumberFacts.

(** ** String similarity *)

Lemma pick_lengths (str1 str2 : string) :
  String.length (pick_shorter str1 str2) <= String.length (pick_longer str1 str2)
  /\ String.length (pick_longer str1 str2) =
     Nat.max (String.length str1) (String.length str2).
Proof.
  unfold pick_shorter, pick_longer.
  destruct (String.length str2 <? String.length str1) eqn:E;
    [apply Nat.ltb_lt in E | apply Nat.ltb_ge in E]; lia.
Qed.

Lemma levenshteinDistance_picked (str1 str2 : string) :
  levenshteinDistance (pick_longer str1 str2) (pick_shorter str1 str2) =
  levenshteinDistance str1 str2.
Proof.
  unfold pick_shorter, pick_longer.
  destruct (String.length str2 <? String.length str1); [reflexivity|].
  rewrite !levenshteinDistance_cost. apply cost_sym.
Qed.

(** C10. For every pair of strings [stringSimilarity] lies in [0,1]: the
    distance between the longer and the shorter string is at least the
    difference of their lengths and at most the longer length, so the
    quotient (longer length - distance) / longer length is between 0 and
    1; two empty strings have similarity 1. *)
Theorem stringSimilarity_unit_interval (str1 str2 : string) :
  (String.length (pick_longer str1 str2)
   - String.length (pick_shorter str1 str2)
   <= levenshteinDistance (pick_longer str1 str2) (pick_shorter str1 str2)
   <= String.length (pick_longer str1 str2))
  /\ (0 <= stringSimilarity str1 str2 <= 1)%Q
  /\ stringSimilarity "" "" = 1%Q.
Proof.
  destruct (pick_lengths str1 str2) as [Hle Hmax].
  pose proof (levenshteinDistance_upper (pick_longer str1 str2)
                                        (pick_shorter str1 str2)) as Hup.
  pose proof (levenshteinDistance_lower (pick_longer str1 str2)
                                        (pick_shorter str1 str2)) as [Hlow _].
  assert (Hd : levenshteinDistance (pick_longer str1 str2)
                                   (pick_shorter str1 str2)
               <= String.length (pick_longer str1 str2)) by lia.
  repeat split; try assumption.
  - unfold stringSimilarity.
    destruct (String.length (pick_longer str1 str2) =? 0) eqn:E.
    + lra.
    + apply Nat.eqb_neq in E. apply ratio_unit; [lia | assumption].
  - unfold stringSimilarity.
    destruct (String.length (pick_longer str1 str2) =? 0) eqn:E.
    + lra.
    + apply Nat.eqb_neq in E. apply ratio_unit; [lia | assumption].
Qed.

(** ** Fuzzy matching *)

Section FuzzyFacts.

Variable text : string.

Lemma fuzzy_step_nonneg (matches : Q) (keyword : string) :
  (0 <= matches)%Q -> (0 <= fuzzy_step text matches keyword)%Q.
Proof.
  intros H. unfold fuzzy_step.
  destruct (includes text keyword); [lra|].
  destruct (Qgtb (stringSimilarity text keyword) 0.7) eqn:E; [|assumption].
  apply Qgtb_true in E. lra.
Qed.

Lemma fuzzy_fold_nonneg (keywords : list string) (matches : Q) :
  (0 <= matches)%Q ->
  (0 <= fold_left (fuzzy_step text) keywords matches)%Q.
Proof.
  revert matches; induction keywords as [|k ks IH]; intros matches H.
  - assumption.
  - simpl. apply IH, fuzzy_step_nonneg, H.
Qed.

Lemma fuzzyMatch_range (keywords : list string) :
  (0 <= fuzzyMatch text keywords <= 1)%Q.
Proof.
  unfold fuzzyMatch.
  destruct ((String.length text =? 0) || (List.length keywords =? 0)) eqn:E.
  - lra.
  - apply orb_false_iff in E as [_ E]. apply Nat.eqb_neq in E.
    apply Qmin_unit, Qle_shift_div_l.
    + apply Qnat_pos. lia.
    + rewrite Qmult_0_l. apply fuzzy_fold_nonneg. lra.
Qed.

Hypothesis text_nonempty : String.length text <> 0.

Lemma stringSimilarity_spec (keyword : string) :
  (stringSimilarity text keyword == FuzzySpec.similarity text keyword)%Q.
Proof.
  unfold stringSimilarity, FuzzySpec.similarity.
  destruct (pick_lengths text keyword) as [_ Hmax].
  rewrite levenshteinDistance_picked, Hmax.
  assert (Hpos : 0 < Nat.max (String.length text) (String.length keyword))
    by lia.
  destruct (Nat.max (String.length text) (String.length keyword) =? 0) eqn:E.
  - apply Nat.eqb_eq in E. lia.
  - pose proof (Qnat_pos _ Hpos). field. lra.
Qed.

Lemma fuzzy_step_spec (matches : Q) (keyword : string) :
  (fuzzy_step text matches keyword
   == matches + FuzzySpec.point text keyword)%Q.
Proof.
  unfold fuzzy_step, FuzzySpec.point.
  destruct (includes text keyword); [reflexivity|].
  pose proof (stringSimilarity_spec keyword) as Hs.
  rewrite (Qgtb_compat _ _ _ _ Hs (Qeq_refl 0.7)).
  destruct (Qgtb (FuzzySpec.similarity text keyword) 0.7); lra.
Qed.

Lemma fuzzy_fold_spec (keywords : list string) (matches : Q) :
  (fold_left (fuzzy_step text) keywords matches
   == matches + FuzzySpec.points text keywords)%Q.
Proof.
  revert matches; induction keywords as [|k ks IH]; intros matches.
  - simpl. lra.
  - simpl. rewrite IH, fuzzy_step_spec. lra.
Qed.

End FuzzyFacts.

(** C5. [fuzzyMatch] returns a value in [0,1] computed as the
    specification says: one point for a keyword contained verbatim in the
    text, else the similarity (1 - Levenshtein distance / longer length)
    when it exceeds 0.7; the points are summed, divided by the number of
    keywords and capped at 1.0; an empty keyword list or an empty text
    gives exactly 0. *)
Theorem fuzzyMatch_meets_spec (text : string) (keywords : list string) :
  (fuzzyMatch text keywords == FuzzySpec.fuzzyMatch text keywords)%Q
  /\ (0 <= fuzzyMatch text keywords <= 1)%Q
  /\ fuzzyMatch text [] = 0%Q
  /\ fuzzyMatch "" keywords = 0%Q.
Proof.
  split; [|split; [apply fuzzyMatch_range|split]].
  - destruct text as [|c text'].
    + reflexivity.
    + destruct keywords as [|k ks]; [reflexivity|].
      unfold fuzzyMatch, FuzzySpec.fuzzyMatch.
      cbn [String.length List.length Nat.eqb orb].
      apply Qmin_compat_l.
      rewrite fuzzy_fold_spec by (cbn; discriminate).
      rewrite Qplus_0_l. reflexivity.
  - unfold fuzzyMatch. now rewrite orb_true_r.
  - reflexivity.
Qed.

(** ** Relevance score *)

Section ScoreFacts.

Variable searchTerms : SearchTerms.

Ltac score_step :=
  repeat match goal with
         | |- context [if ?b then _ else _] => destruct b
         | |- context [match ?o with Some _ => _ | None => _ end] =>
             destruct o
         end;
  try assumption.

Ltac add_fuzzy :=
  match goal with
  | |- context [fuzzyMatch ?t ?k] =>
      pose proof (fuzzyMatch_range t k); unfold Weights.name, Weights.role,
        Weights.company, Weights.expertise in *; nra
  end.

Lemma score_exact_nonneg personal professional originalQuery (score : Q) :
  (0 <= score)%Q ->
  (0 <= score_exact personal professional originalQuery score)%Q.
Proof.
  intros H. unfold score_exact. score_step. unfold Weights.exact. lra.
Qed.

Lemma score_name_nonneg personal (score : Q) :
  (0 <= score)%Q -> (0 <= score_name personal searchTerms score)%Q.
Proof.
  intros H. unfold score_name. destruct (truthy (name personal));
    [add_fuzzy | assumption].
Qed.

Lemma score_role_nonneg professional (score : Q) :
  (0 <= score)%Q -> (0 <= score_role professional searchTerms score)%Q.
Proof.
  intros H. unfold score_role.
  destruct (truthy (current_role professional)); [|assumption].
  cbv zeta. destruct (existsb _ _); add_fuzzy.
Qed.

Lemma score_company_nonneg professional (score : Q) :
  (0 <= score)%Q -> (0 <= score_company professional searchTerms score)%Q.
Proof.
  intros H. unfold score_company. destruct (truthy (company professional));
    [add_fuzzy | assumption].
Qed.

Lemma score_industry_nonneg professional (score : Q) :
  (0 <= score)%Q -> (0 <= score_industry professional searchTerms score)%Q.
Proof.
  intros H. unfold score_industry. score_step. unfold Weights.industry. lra.
Qed.

Lemma score_expertise_nonneg professional (score : Q) :
  (0 <= score)%Q -> (0 <= score_expertise professional searchTerms score)%Q.
Proof.
  intros H. unfold score_expertise.
  destruct (expertise_tags professional); [add_fuzzy | assumption].
Qed.

Lemma score_location_nonneg personal (score : Q) :
  (0 <= score)%Q -> (0 <= score_location personal searchTerms score)%Q.
Proof.
  intros H. unfold score_location. score_step. unfold Weights.location. lra.
Qed.

Lemma score_networking_nonneg networking (score : Q) :
  (0 <= score)%Q -> (0 <= score_networking networking searchTerms score)%Q.
Proof.
  intros H. unfold score_networking.
  destruct (net_goals networking), (net_offering networking);
    score_step; unfold Weights.networking; lra.
Qed.

Lemma rawScore_nonneg alumni originalQuery :
  (0 <= rawScore alumni searchTerms originalQuery)%Q.
Proof.
  unfold rawScore. cbv zeta.
  apply score_networking_nonneg, score_location_nonneg,
    score_expertise_nonneg, score_industry_nonneg, score_company_nonneg,
    score_role_nonneg, score_name_nonneg, score_exact_nonneg.
  lra.
Qed.

End ScoreFacts.

(** C4. For every profile, search terms and raw query the relevance
    score lies in the closed interval [0, 1]: it is the sum of the
    triggered weights, which is never negative, capped at 1.0. *)
Theorem calculateRelevanceScore_unit_interval
        (alumni : Alumni) (searchTerms : SearchTerms) (originalQuery : string) :
  (0 <= calculateRelevanceScore alumni searchTerms originalQuery <= 1)%Q
  /\ (0 <= rawScore alumni searchTerms originalQuery)%Q
  /\ calculateRelevanceScore alumni searchTerms originalQuery
     = Qmin (rawScore alumni searchTerms originalQuery) 1.
Proof.
  pose proof (rawScore_nonneg searchTerms alumni originalQuery) as Hraw.
  split; [|split; [assumption | reflexivity]].
  unfold calculateRelevanceScore. apply Qmin_unit, Hraw.
Qed.

(** ** The role block *)

Lemma role_vocabulary_nonempty (role : string) :
  In role role_vocabulary -> role <> "".
Proof.
  unfold role_vocabulary. simpl.
  intros H; repeat destruct H as [<-|H]; try discriminate. contradiction.
Qed.

Lemma includes_truthy (r pat : string) :
  pat <> "" -> includes (toLowerCase r) pat = true -> truthy (Some r) = true.
Proof.
  intros Hpat Hinc. destruct r as [|c r]; [|reflexivity].
  destruct pat as [|d pat]; [congruence | discriminate].
Qed.

(** The score the role block leaves when a matched vocabulary term occurs
    in the lowercased role. *)
Lemma score_role_with_bonus (professional : Professional)
      (searchTerms : SearchTerms) (r role : string) (score : Q) :
  current_role professional = Some r ->
  role <> "" ->
  In role (matchedRoles searchTerms) ->
  includes (toLowerCase r) role = true ->
  (score_role professional searchTerms score
   == score + fuzzyMatch (toLowerCase r) (keywords searchTerms) * 0.25
      + 0.125)%Q.
Proof.
  intros Hr Hne Hin Hinc. unfold score_role. rewrite Hr.
  rewrite (includes_truthy r role Hne Hinc). cbn [interpolate].
  assert (E : existsb (fun role0 => includes (toLowerCase r) role0)
                      (matchedRoles searchTerms) = true).
  { apply existsb_exists. exists role. split; assumption. }
  rewrite E. unfold Weights.role. lra.
Qed.

(** C6. When a role term of the fixed vocabulary matched by the query is
    a substring of the lowercased role of the profile, the role block adds
    0.125 (half of the role weight 0.25) on top of the fuzzy-match
    contribution of the role.  For the query "founder" and the role
    "Founder & CEO" the fuzzy score is 1.0, so the full role weight and
    the bonus are both added; a profile with nothing but that role scores
    0.5 + 0.25 + 0.125 (whole query, role, bonus). *)
Theorem role_vocabulary_bonus :
  (forall (professional : Professional) (query r role : string) (score : Q),
      current_role professional = Some r ->
      In role (matchedRoles (extractSearchTerms query)) ->
      includes (toLowerCase r) role = true ->
      (score_role professional (extractSearchTerms query) score
       == score
          + fuzzyMatch (toLowerCase r) (keywords (extractSearchTerms query))
            * Weights.role
          + 0.125)%Q)
  /\ (forall (professional : Professional) (score : Q),
         current_role professional = Some "Founder & CEO" ->
         In "founder" (matchedRoles (extractSearchTerms "founder"))
         /\ includes (toLowerCase "Founder & CEO") "founder" = true
         /\ (fuzzyMatch (toLowerCase "Founder & CEO")
                        (keywords (extractSearchTerms "founder")) == 1)%Q
         /\ (score_role professional (extractSearchTerms "founder") score
             == score + 0.25 + 0.125)%Q)
  /\ (calculateRelevanceScore founder_only (extractSearchTerms "founder")
                              "founder"
      == 0.5 + 0.25 + 0.125)%Q.
Proof.
  split; [|split; [|vm_compute; reflexivity]].
  - intros professional query r role score Hr Hin Hinc.
    assert (Hne : role <> "").
    { apply role_vocabulary_nonempty.
      unfold extractSearchTerms in Hin. cbn [matchedRoles] in Hin.
      apply filter_In in Hin. apply Hin. }
    rewrite (score_role_with_bonus professional _ r role score Hr Hne Hin Hinc).
    unfold Weights.role. reflexivity.
  - intros professional score Hr.
    assert (Hin : In "founder" (matchedRoles (extractSearchTerms "founder")))
      by (vm_compute; auto).
    assert (Hinc : includes (toLowerCase "Founder & CEO") "founder" = true)
      by reflexivity.
    assert (Hf : (fuzzyMatch (toLowerCase "Founder & CEO")
                             (keywords (extractSearchTerms "founder")) == 1)%Q)
      by (vm_compute; reflexivity).
    repeat split; try assumption.
    rewrite (score_role_with_bonus professional _ "Founder & CEO" "founder"
               score Hr ltac:(discriminate) Hin Hinc).
    rewrite Hf. lra.
Qed.

(** The general part of [role_vocabulary_bonus] at the query
    "senior engineer" and the role "Software Engineer". *)
Lemma role_vocabulary_bonus_witness :
  let professional :=
    {| current_role := Some "Software Engineer"; company := None;
       industry := None; expertise_tags := None |} in
  current_role professional = Some "Software Engineer"
  /\ In "engineer" (matchedRoles (extractSearchTerms "senior engineer"))
  /\ includes (toLowerCase "Software Engineer") "engineer" = true
  /\ (score_role professional (extractSearchTerms "senior engineer") 0
      == 0
         + fuzzyMatch (toLowerCase "Software Engineer")
                      (keywords (extractSearchTerms "senior engineer"))
           * Weights.role
         + 0.125)%Q.
Proof.
  intros professional.
  assert (Hin : In "engineer"
                   (matchedRoles (extractSearchTerms "senior engineer")))
    by (vm_compute; auto 10).
  split; [reflexivity | split; [exact Hin | split; [reflexivity|]]].
  apply (proj1 role_vocabulary_bonus professional "senior engineer"
               "Software Engineer" "engineer" 0%Q eq_refl Hin eq_refl).
Defined.

(** ** A profile without any group *)

(** Such a profile triggers at most the whole-query block, whose text is
    the word "undefined" five times. *)
Lemma bare_profile_score (id : string) (searchTerms : SearchTerms)
      (originalQuery : string) :
  calculateRelevanceScore (bare_profile id) searchTerms originalQuery =
  Qmin (if includes "undefined undefined undefined undefined undefined"
                    (toLowerCase originalQuery)
        then 0 + Weights.exact else 0)%Q 1.
Proof. reflexivity. Qed.

(** C1 (the code departs from it). A profile with no personal,
    professional or networking group is scored 0.5 for the query
    "undefined", and for "fin", and appears in the result of the local
    search: the absent fields are printed into the searched text. *)
Theorem bare_profile_found_by_undefined :
  (calculateRelevanceScore (bare_profile "ghost")
                           (extractSearchTerms "undefined") "undefined"
   == 0.5)%Q
  /\ map profile (performLocalSearch [bare_profile "ghost"] "undefined")
     = [bare_profile "ghost"]
  /\ map profile (performLocalSearch [bare_profile "ghost"; sarah] "fin")
     = [bare_profile "ghost"].
Proof. repeat split; vm_compute; reflexivity. Qed.

(** ** The ranked local search *)

Section SortFacts.

Let descending (a b : ScoredResult) : Prop :=
  (searchRelevance b <= searchRelevance a)%Q.

Lemma insert_In (x y : ScoredResult) (l : list ScoredResult) :
  In y (insert byRelevanceDesc x l) <-> y = x \/ In y l.
Proof.
  induction l as [|z l IH]; simpl.
  - intuition.
  - destruct (Qle_bool (byRelevanceDesc x z) 0); simpl;
      [|rewrite IH]; intuition.
Qed.

Lemma sort_In (y : ScoredResult) (l : list ScoredResult) :
  In y (sort byRelevanceDesc l) <-> In y l.
Proof.
  induction l as [|x l IH]; simpl; [reflexivity|].
  rewrite insert_In, IH. intuition.
Qed.

Lemma insert_Forall (P : ScoredResult -> Prop) x l :
  P x -> Forall P l -> Forall P (insert byRelevanceDesc x l).
Proof.
  intros Hx Hl. apply Forall_forall. intros y Hy.
  apply insert_In in Hy as [->|Hy]; [assumption|].
  now apply (proj1 (Forall_forall P l) Hl).
Qed.

Lemma insert_sorted x l :
  StronglySorted descending l ->
  StronglySorted descending (insert byRelevanceDesc x l).
Proof.
  induction 1 as [|z l Hs IH Hz]; simpl.
  - repeat constructor.
  - destruct (Qle_bool (byRelevanceDesc x z) 0) eqn:E.
    + apply Qle_bool_iff in E. unfold byRelevanceDesc in E.
      constructor; [constructor; assumption|].
      constructor; [unfold descending; lra|].
      eapply Forall_impl; [|exact Hz].
      unfold descending. intros w Hw. lra.
    + assert (Hlt : ~ (byRelevanceDesc x z <= 0)%Q)
        by (rewrite <- Qle_bool_iff, E; discriminate).
      unfold byRelevanceDesc in Hlt.
      constructor; [assumption|].
      apply insert_Forall; [unfold descending; lra | assumption].
Qed.

Lemma sort_sorted l : StronglySorted descending (sort byRelevanceDesc l).
Proof.
  induction l as [|x l IH]; simpl; [constructor | now apply insert_sorted].
Qed.

(** Results of one relevance keep their order: inserting into a list
    does not move an element past another of the same relevance. *)
Lemma insert_filter (v : Q) x l :
  filter (fun r => Qeq_bool (searchRelevance r) v)
         (insert byRelevanceDesc x l)
  = filter (fun r => Qeq_bool (searchRelevance r) v) (x :: l).
Proof.
  induction l as [|z l IH]; [reflexivity|].
  cbn [insert].
  destruct (Qle_bool (byRelevanceDesc x z) 0) eqn:E; [reflexivity|].
  assert (Hlt : ~ (byRelevanceDesc x z <= 0)%Q)
    by (rewrite <- Qle_bool_iff, E; discriminate).
  unfold byRelevanceDesc in Hlt.
  cbn [filter] in *. rewrite IH.
  destruct (Qeq_bool (searchRelevance x) v) eqn:Ex,
           (Qeq_bool (searchRelevance z) v) eqn:Ez; try reflexivity.
  apply Qeq_bool_iff in Ex, Ez. lra.
Qed.

Lemma sort_filter (v : Q) l :
  filter (fun r => Qeq_bool (searchRelevance r) v) (sort byRelevanceDesc l)
  = filter (fun r => Qeq_bool (searchRelevance r) v) l.
Proof.
  induction l as [|x l IH]; [reflexivity|].
  cbn [sort]. rewrite insert_filter. cbn [filter]. now rewrite IH.
Qed.

End SortFacts.

Section LocalSearchFacts.

Variable query : string.

Let score (alumni : Alumni) : Q :=
  calculateRelevanceScore alumni (extractSearchTerms query) query.

Let scored (alumni : Alumni) : ScoredResult :=
  {| profile := alumni; searchRelevance := score alumni;
     searchQuery := query |}.

(** What the [forEach] has pushed: the profiles above the threshold,
    in the order of the profile list. *)
Lemma collect_fold (alumniData : list Alumni) (results : list ScoredResult) :
  fold_left (collect (extractSearchTerms query) query) alumniData results
  = results
    ++ map scored (filter (fun a => Qgtb (score a) 0.1%Q) alumniData).
Proof.
  revert results; induction alumniData as [|a data IH]; intros results.
  - simpl. now rewrite app_nil_r.
  - cbn [fold_left filter]. rewrite IH. unfold collect at 1.
    fold (score a). destruct (Qgtb (score a) 0.1); [|reflexivity].
    cbn [map]. rewrite <- app_assoc. reflexivity.
Qed.

Lemma performLocalSearch_unfold (alumniData : list Alumni) :
  performLocalSearch alumniData query
  = sort byRelevanceDesc
         (map scored (filter (fun a => Qgtb (score a) 0.1%Q) alumniData)).
Proof.
  unfold performLocalSearch. cbv zeta. now rewrite collect_fold.
Qed.

Lemma performLocalSearch_In (alumniData : list Alumni) (r : ScoredResult) :
  In r (performLocalSearch alumniData query) <->
  exists a, In a alumniData /\ Qgtb (score a) 0.1%Q = true /\ r = scored a.
Proof.
  rewrite performLocalSearch_unfold, sort_In, in_map_iff.
  split.
  - intros (a & <- & Ha). apply filter_In in Ha. exists a. intuition.
  - intros (a & Hin & Hgt & ->). exists a. split; [reflexivity|].
    apply filter_In. split; assumption.
Qed.

Lemma filter_scored (v : Q) (l : list Alumni) :
  map profile
      (filter (fun r => Qeq_bool (searchRelevance r) v) (map scored l))
  = filter (fun a => Qeq_bool (score a) v) l.
Proof.
  induction l as [|a l IH]; [reflexivity|].
  cbn [map filter searchRelevance scored].
  destruct (Qeq_bool (score a) v); cbn [map profile]; now rewrite IH.
Qed.

Lemma filter_filter (f g : Alumni -> bool) (l : list Alumni) :
  filter f (filter g l) = filter (fun a => g a && f a) l.
Proof.
  induction l as [|a l IH]; [reflexivity|].
  cbn [filter]. destruct (g a); cbn [filter andb]; now rewrite IH.
Qed.

End LocalSearchFacts.

(** C2. Every element of the list the local search returns has a
    relevance strictly above 0.1, and that relevance is the score of its
    profile: a profile scoring at most 0.1 is never in the result. *)
Theorem performLocalSearch_above_threshold
        (alumniData : list Alumni) (query : string) :
  Forall (fun r =>
            (0.1 < searchRelevance r)%Q
            /\ searchRelevance r
               = calculateRelevanceScore (profile r)
                                         (extractSearchTerms query) query
            /\ In (profile r) alumniData)
         (performLocalSearch alumniData query).
Proof.
  apply Forall_forall. intros r Hr.
  apply performLocalSearch_In in Hr as (a & Hin & Hgt & ->).
  apply Qgtb_true in Hgt. cbn [searchRelevance profile].
  repeat split; assumption.
Qed.

(** C3. The result of the local search is sorted by non-increasing
    [searchRelevance], and results of equal relevance keep the order
    their profiles have in the profile list: for every value [v], the
    profiles of the results of relevance [v] are, in order, the profiles
    of the list that pass the threshold and score [v]. *)
Theorem performLocalSearch_sorted_stable
        (alumniData : list Alumni) (query : string) :
  StronglySorted (fun a b => (searchRelevance b <= searchRelevance a)%Q)
                 (performLocalSearch alumniData query)
  /\ forall v : Q,
      map profile
          (filter (fun r => Qeq_bool (searchRelevance r) v)
                  (performLocalSearch alumniData query))
      = filter (fun a =>
                  Qgtb (calculateRelevanceScore a (extractSearchTerms query)
                                                query) 0.1%Q
                  && Qeq_bool (calculateRelevanceScore
                                 a (extractSearchTerms query) query) v)
               alumniData.
Proof.
  rewrite performLocalSearch_unfold. split.
  - apply sort_sorted.
  - intros v. rewrite sort_filter, filter_scored, filter_filter. reflexivity.
Qed.

(** ** The cache *)

Section MapFacts.

Context {V : Type}.
Implicit Types (m : JsMap.t V) (k : string) (v : V).

Lemma has_false m k : JsMap.has m k = false <-> ~ In k (JsMap.keys m).
Proof.
  unfold JsMap.has, JsMap.keys.
  induction m as [|e m IH]; simpl.
  - intuition.
  - rewrite orb_false_iff, IH, String.eqb_neq. intuition.
Qed.

Lemma has_true m k : JsMap.has m k = true <-> In k (JsMap.keys m).
Proof.
  destruct (JsMap.has m k) eqn:E.
  - split; [intros _|reflexivity].
    destruct (in_dec string_dec k (JsMap.keys m)) as [H|H]; [assumption|].
    apply has_false in H. congruence.
  - apply has_false in E. split; [discriminate | contradiction].
Qed.

Lemma set_absent m k v :
  JsMap.has m k = false -> JsMap.set m k v = m ++ [(k, v)].
Proof.
  unfold JsMap.has. induction m as [|e m IH]; simpl; [reflexivity|].
  intros H. apply orb_false_iff in H as [He Hm].
  rewrite He, (IH Hm). reflexivity.
Qed.

Lemma get_last m k v :
  JsMap.has m k = false -> JsMap.get (m ++ [(k, v)]) k = Some v.
Proof.
  unfold JsMap.has, JsMap.get. induction m as [|e m IH]; simpl.
  - now rewrite String.eqb_refl.
  - intros H. apply orb_false_iff in H as [He Hm].
    rewrite He. apply IH, Hm.
Qed.

Lemma has_last m k v : JsMap.has (m ++ [(k, v)]) k = true.
Proof.
  apply has_true. unfold JsMap.keys. rewrite map_app. apply in_app_iff.
  right. now left.
Qed.

Lemma delete_keys m k k' :
  In k' (JsMap.keys (JsMap.delete m k)) -> In k' (JsMap.keys m).
Proof.
  unfold JsMap.keys, JsMap.delete. rewrite !in_map_iff.
  intros (e & He & Hin). apply filter_In in Hin. exists e. intuition.
Qed.

Lemma delete_head e m :
  ~ In (fst e) (JsMap.keys m) -> JsMap.delete (e :: m) (fst e) = m.
Proof.
  intros Hnot. unfold JsMap.delete. cbn [filter].
  rewrite String.eqb_refl. cbn [negb].
  induction m as [|e' m IH]; [reflexivity|].
  cbn [filter]. simpl in Hnot.
  destruct (String.eqb (fst e') (fst e)) eqn:E.
  - apply String.eqb_eq in E. intuition.
  - cbn [negb]. f_equal. apply IH. intuition.
Qed.

Lemma has_get m k :
  JsMap.has m k = true -> exists v, JsMap.get m k = Some v.
Proof.
  unfold JsMap.has, JsMap.get. induction m as [|e m IH]; simpl.
  - discriminate.
  - destruct (String.eqb (fst e) k); simpl;
      [intros _; eexists; reflexivity | exact IH].
Qed.

End MapFacts.

Section CacheFacts.

Lemma toLowerCase_length (s : string) :
  String.length (toLowerCase s) = String.length s.
Proof. induction s; simpl; congruence. Qed.

Lemma normalize_blank (query : string) :
  (String.length (trim query) =? 0) = (String.length (normalize query) =? 0).
Proof. unfold normalize. now rewrite toLowerCase_length. Qed.

Lemma performSearch_miss (this : SearchManager) (query : string) :
  String.length (trim query) <> 0 ->
  JsMap.has (searchCache this) (normalize query) = false ->
  performSearch this query
  = (after_miss this query,
     Displayed (performLocalSearch (alumniData this) query) true).
Proof.
  intros Hq Hmiss. unfold performSearch.
  apply Nat.eqb_neq in Hq. rewrite Hq. cbv zeta. rewrite Hmiss.
  reflexivity.
Qed.

Lemma performSearch_hit (this : SearchManager) (query : string) :
  String.length (trim query) <> 0 ->
  JsMap.has (searchCache this) (normalize query) = true ->
  exists cachedResults,
    JsMap.get (searchCache this) (normalize query) = Some cachedResults
    /\ performSearch this query = (this, Displayed cachedResults false).
Proof.
  intros Hq Hhit. unfold performSearch.
  apply Nat.eqb_neq in Hq. rewrite Hq. cbv zeta. rewrite Hhit.
  destruct (has_get _ _ Hhit) as [v Hv]. exists v. now rewrite Hv.
Qed.

Lemma after_miss_absent (this : SearchManager) (query : string) :
  JsMap.has (searchCache this) (normalize query) = false ->
  exists kept,
    searchCache (after_miss this query)
    = kept ++ [(normalize query, performLocalSearch (alumniData this) query)]
    /\ JsMap.has kept (normalize query) = false.
Proof.
  intros Hmiss. unfold after_miss, cacheSearchResults.
  cbn [searchCache].
  set (kept := if maxCacheSize this <=? JsMap.size (searchCache this)
               then _ else _).
  assert (Hkept : JsMap.has kept (normalize query) = false).
  { subst kept. apply has_false. apply has_false in Hmiss.
    destruct (maxCacheSize this <=? JsMap.size (searchCache this));
      [|assumption].
    destruct (JsMap.first_key (searchCache this)); [|assumption].
    intros Hin. apply Hmiss. eapply delete_keys, Hin. }
  exists kept. split; [apply set_absent|]; assumption.
Qed.

End CacheFacts.

(** C7. Two searches whose queries have the same normalized (trimmed,
    lowercased) form, made one after the other over the same profile
    list, show the same ranked list: the second call is answered from
    the cache and computes nothing.  For a non-blank query both calls
    display a list; the list of the second call is the entry the cache
    holds under the normalized query after the first call, which is the
    list the first call displayed (computed by the local search when the
    first call missed the cache, read from the cache otherwise); the
    second call leaves the manager as the first call left it.  For a
    blank query both calls clear the search. *)
Theorem performSearch_repeat_from_cache
        (this : SearchManager) (query1 query2 : string) :
  normalize query1 = normalize query2 ->
  let this1 := fst (performSearch this query1) in
  let out1 := snd (performSearch this query1) in
  let this2 := fst (performSearch this1 query2) in
  let out2 := snd (performSearch this1 query2) in
  this2 = this1
  /\ alumniData this1 = alumniData this
  /\ recomputed out2 = false
  /\ displayed out2 = displayed out1
  /\ (String.length (trim query1) = 0 -> out1 = Cleared /\ out2 = Cleared)
  /\ (String.length (trim query1) <> 0 ->
      exists results,
        displayed out1 = Some results
        /\ out2 = Displayed results false
        /\ JsMap.has (searchCache this1) (normalize query2) = true
        /\ JsMap.get (searchCache this1) (normalize query2) = Some results
        /\ (JsMap.has (searchCache this) (normalize query1) = false ->
            out1 = Displayed (performLocalSearch (alumniData this) query1)
                             true)
        /\ (JsMap.has (searchCache this) (normalize query1) = true ->
            out1 = Displayed results false /\ this1 = this)).
Proof.
  intros Hnorm. cbv zeta.
  destruct (String.length (trim query1) =? 0) eqn:Hq1.
  - assert (Hq2 : (String.length (trim query2) =? 0) = true)
      by (rewrite normalize_blank, <- Hnorm, <- normalize_blank; exact Hq1).
    apply Nat.eqb_eq in Hq1.
    assert (E1 : performSearch this query1 = (this, Cleared)).
    { unfold performSearch. apply Nat.eqb_eq in Hq1. now rewrite Hq1. }
    rewrite E1. cbn [fst snd].
    assert (E2 : performSearch this query2 = (this, Cleared)).
    { unfold performSearch. now rewrite Hq2. }
    rewrite E2. cbn [fst snd displayed recomputed].
    repeat split. intros Hne. contradiction.
  - assert (Hq2 : String.length (trim query2) <> 0).
    { apply Nat.eqb_neq.
      rewrite normalize_blank, <- Hnorm, <- normalize_blank. exact Hq1. }
    apply Nat.eqb_neq in Hq1.
    destruct (JsMap.has (searchCache this) (normalize query1)) eqn:Hc.
    + destruct (performSearch_hit this query1 Hq1 Hc) as (v & Hv & E1).
      rewrite E1. cbn [fst snd].
      rewrite Hnorm in Hc, Hv.
      destruct (performSearch_hit this query2 Hq2 Hc) as (w & Hw & E2).
      rewrite E2. cbn [fst snd displayed recomputed].
      assert (w = v) by congruence. subst w.
      repeat split; try (intros; congruence).
      intros _. exists v. repeat split; try assumption; intros; congruence.
    + rewrite (performSearch_miss this query1 Hq1 Hc). cbn [fst snd].
      destruct (after_miss_absent this query1 Hc) as (kept & Hafter & Hkept).
      set (this1 := after_miss this query1) in *.
      assert (Hhit : JsMap.has (searchCache this1) (normalize query2) = true).
      { rewrite Hafter, <- Hnorm. apply has_last. }
      destruct (performSearch_hit this1 query2 Hq2 Hhit) as (w & Hw & E2).
      rewrite E2. cbn [fst snd displayed recomputed].
      assert (Hget : JsMap.get (searchCache this1) (normalize query2)
                     = Some (performLocalSearch (alumniData this) query1)).
      { rewrite Hafter, <- Hnorm. apply (get_last kept _ _ Hkept). }
      assert (w = performLocalSearch (alumniData this) query1) by congruence.
      subst w.
      repeat split; try (intros; congruence).
      intros _. exists (performLocalSearch (alumniData this) query1).
      repeat split; try assumption; intros; congruence.
Qed.

(** ** Sessions: the cache stays bounded and evicts in insertion order *)

Section SessionFacts.

Variable data : list Alumni.

Lemma reached_constructor : reached data (constructor data).
Proof.
  unfold reached, constructor. cbn.
  repeat split; [lia | constructor | auto].
Qed.

Lemma keys_tl {V} (m : JsMap.t V) : JsMap.keys (tl m) = tl (JsMap.keys m).
Proof. destruct m; reflexivity. Qed.

Lemma normalize_nonblank (query : string) :
  String.length (trim query) <> 0 -> normalize query <> "".
Proof.
  intros H E. apply H. apply Nat.eqb_eq. rewrite normalize_blank, E.
  reflexivity.
Qed.

(** The keys after a miss: the first key goes when the cache holds 100
    entries, the new key is appended. *)
Lemma miss_cache (this : SearchManager) (query : string) :
  reached data this ->
  JsMap.has (searchCache this) (normalize query) = false ->
  searchCache (after_miss this query)
  = (if 100 <=? JsMap.size (searchCache this)
     then tl (searchCache this) else searchCache this)
    ++ [(normalize query, performLocalSearch data query)].
Proof.
  intros (Hdata & Hmax & Hsize & Hnodup & Hne) Hmiss.
  unfold after_miss, cacheSearchResults. cbn [searchCache].
  rewrite Hmax, Hdata.
  destruct (100 <=? JsMap.size (searchCache this)) eqn:E.
  - destruct (searchCache this) as [|e m] eqn:Hc.
    + cbn. reflexivity.
    + cbn [JsMap.first_key tl]. cbn [JsMap.keys map] in Hnodup.
      apply NoDup_cons_iff in Hnodup as [Hhead Htail].
      rewrite (delete_head e m Hhead).
      apply set_absent. apply has_false. apply has_false in Hmiss.
      cbn [JsMap.keys map] in Hmiss. simpl in Hmiss. intuition.
  - apply set_absent, Hmiss.
Qed.

Lemma reached_step (this : SearchManager) (query : string) :
  reached data this -> reached data (fst (performSearch this query)).
Proof.
  intros Hr.
  destruct (String.length (trim query) =? 0) eqn:Hq.
  - unfold performSearch. rewrite Hq. exact Hr.
  - apply Nat.eqb_neq in Hq.
    destruct (JsMap.has (searchCache this) (normalize query)) eqn:Hc.
    + destruct (performSearch_hit this query Hq Hc) as (v & _ & ->).
      exact Hr.
    + rewrite (performSearch_miss this query Hq Hc). cbn [fst].
      pose proof (miss_cache this query Hr Hc) as Hafter.
      destruct Hr as (Hdata & Hmax & Hsize & Hnodup & Hne).
      unfold reached. cbn [alumniData maxCacheSize searchCache].
      rewrite Hafter. unfold JsMap.size, JsMap.keys in *.
      rewrite length_app, map_app. cbn [List.length map fst].
      apply has_false in Hc. unfold JsMap.keys in Hc.
      pose proof (normalize_nonblank query Hq) as Hnq.
      destruct (100 <=? List.length (searchCache this)) eqn:E.
      * apply Nat.leb_le in E.
        destruct (searchCache this) as [|e m]; [simpl in E; lia|].
        cbn [tl]. cbn [map List.length] in *.
        apply NoDup_cons_iff in Hnodup as [Hhead Htail].
        repeat split; try assumption; try lia.
        -- apply NoDup_app; [assumption | repeat constructor; auto |].
           intros a Ha [<-|[]]. apply Hc. now right.
        -- rewrite in_app_iff. simpl. intros [H|[H|[]]].
           ++ apply Hne. now right.
           ++ now apply Hnq.
      * apply Nat.leb_gt in E.
        repeat split; try assumption; try lia.
        -- apply NoDup_app; [assumption | repeat constructor; auto |].
           intros a Ha [<-|[]]. now apply Hc.
        -- rewrite in_app_iff. simpl. intros [H|[H|[]]].
           ++ now apply Hne.
           ++ now apply Hnq.
Qed.

Lemma reached_run (queries : list string) (this : SearchManager) :
  reached data this -> reached data (run this queries).
Proof.
  revert this; induction queries as [|q qs IH]; intros this Hr.
  - exact Hr.
  - cbn [run fold_left]. apply IH, reached_step, Hr.
Qed.

Lemma miss_keys (this : SearchManager) (query : string) :
  reached data this ->
  String.length (trim query) <> 0 ->
  JsMap.has (searchCache this) (normalize query) = false ->
  JsMap.keys (searchCache (fst (performSearch this query)))
  = (if 100 <=? JsMap.size (searchCache this)
     then tl (JsMap.keys (searchCache this))
     else JsMap.keys (searchCache this))
    ++ [normalize query].
Proof.
  intros Hr Hq Hc.
  rewrite (performSearch_miss this query Hq Hc). cbn [fst searchCache].
  rewrite (miss_cache this query Hr Hc).
  unfold JsMap.keys at 1. rewrite map_app. cbn [map fst].
  fold (@JsMap.keys (list ScoredResult)).
  destruct (100 <=? JsMap.size (searchCache this));
    [rewrite <- keys_tl|]; reflexivity.
Qed.

(** Distinct fresh queries, searched in turn: the keys are the last
    100 of the old keys followed by the new ones. *)
Lemma run_keys (queries : list string) (this : SearchManager) :
  reached data this ->
  NoDup (map normalize queries) ->
  Forall (fun q => String.length (trim q) <> 0) queries ->
  (forall q, In q queries ->
             ~ In (normalize q) (JsMap.keys (searchCache this))) ->
  JsMap.keys (searchCache (run this queries))
  = skipn (JsMap.size (searchCache this) + List.length queries - 100)
          (JsMap.keys (searchCache this) ++ map normalize queries).
Proof.
  revert this; induction queries as [|q qs IH];
    intros this Hr Hnodup Hblank Hfresh.
  - cbn [run fold_left map List.length]. rewrite app_nil_r.
    destruct Hr as (_ & _ & Hsize & _).
    replace (JsMap.size (searchCache this) + 0 - 100) with 0 by lia.
    reflexivity.
  - cbn [run fold_left]. fold (run (fst (performSearch this q)) qs).
    cbn [map] in Hnodup. apply NoDup_cons_iff in Hnodup as [Hq_new Hqs].
    apply Forall_cons_iff in Hblank as [Hq Hqs_blank].
    assert (Hc : JsMap.has (searchCache this) (normalize q) = false)
      by (apply has_false, Hfresh; now left).
    pose proof (miss_keys this q Hr Hq Hc) as Hkeys.
    pose proof (reached_step this q Hr) as Hr'.
    assert (Hsize' : JsMap.size (searchCache (fst (performSearch this q)))
                     = List.length
                         (JsMap.keys (searchCache (fst (performSearch this q)))))
      by (unfold JsMap.size, JsMap.keys; now rewrite length_map).
    rewrite IH; try assumption.
    + rewrite Hsize', Hkeys.
      destruct Hr as (_ & _ & Hsize & _).
      assert (Hlen : List.length (JsMap.keys (searchCache this))
                     = JsMap.size (searchCache this))
        by (unfold JsMap.size, JsMap.keys; now rewrite length_map).
      destruct (100 <=? JsMap.size (searchCache this)) eqn:E.
      * apply Nat.leb_le in E.
        destruct (JsMap.keys (searchCache this)) as [|k0 ks] eqn:Hks;
          [simpl in Hlen; lia|].
        cbn [tl]. rewrite length_app. cbn [List.length map] in *.
        rewrite <- app_assoc. cbn [app].
        replace (JsMap.size (searchCache this) + S (List.length qs) - 100)
          with (S (List.length qs)) by lia.
        replace (List.length ks + 1 + List.length qs - 100)
          with (List.length qs) by lia.
        reflexivity.
      * apply Nat.leb_gt in E.
        rewrite length_app, <- app_assoc, Hlen. cbn [List.length map app].
        f_equal. lia.
    + intros q' Hq' Hin. rewrite Hkeys in Hin.
      apply in_app_iff in Hin as [Hin|[Hin|[]]].
      * apply (Hfresh q'); [now right|].
        destruct (100 <=? JsMap.size (searchCache this)); [|assumption].
        destruct (JsMap.keys (searchCache this)); [assumption|now right].
      * apply Hq_new. rewrite Hin. now apply in_map.
Qed.

End SessionFacts.

Lemma distinctb_NoDup (l : list string) : distinctb l = true -> NoDup l.
Proof.
  induction l as [|x l IH]; cbn [distinctb]; intros H; constructor.
  - apply andb_true_iff in H as [H _]. apply negb_true_iff in H.
    intros Hin.
    assert (E : existsb (String.eqb x) l = true)
      by (apply existsb_exists; exists x; split;
          [assumption | apply String.eqb_refl]).
    congruence.
  - apply IH. now apply andb_true_iff in H as [_ H].
Qed.

Lemma In_skipn {A} (x : A) (n : nat) (l : list A) :
  In x (skipn n l) -> In x l.
Proof.
  intros H. rewrite <- (firstn_skipn n l). apply in_or_app. now right.
Qed.

(** C8. The cache never holds more than 100 entries and evicts in the
    order of insertion.  For every profile list: (1) after any session
    the cache has at most 100 entries; (2) after a session of distinct
    non-blank queries the keys are the last 100 normalized queries, in
    the order they were searched; (3) once more than 100 distinct queries
    were searched the first of them is no longer cached, and a repeat of
    it is computed again, with the result it had the first time; (4) a
    new query searched when the cache is full removes exactly the first
    key and goes last; (5) a query found in the cache leaves the cache
    as it is, so a hit does not renew an entry. *)
Theorem searchCache_bounded_fifo (data : list Alumni) :
  (forall queries,
      JsMap.size (searchCache (run (constructor data) queries)) <= 100)
  /\ (forall queries,
         NoDup (map normalize queries) ->
         Forall nonblank queries ->
         JsMap.keys (searchCache (run (constructor data) queries))
         = skipn (List.length queries - 100) (map normalize queries))
  /\ (forall first rest,
         NoDup (map normalize (first :: rest)) ->
         Forall nonblank (first :: rest) ->
         100 <= List.length rest ->
         JsMap.has (searchCache (run (constructor data) (first :: rest)))
                   (normalize first) = false
         /\ snd (performSearch (run (constructor data) (first :: rest)) first)
            = Displayed (performLocalSearch data first) true
         /\ snd (performSearch (constructor data) first)
            = Displayed (performLocalSearch data first) true)
  /\ (forall queries query firstKey,
         JsMap.size (searchCache (run (constructor data) queries)) = 100 ->
         JsMap.first_key (searchCache (run (constructor data) queries))
         = Some firstKey ->
         nonblank query ->
         JsMap.has (searchCache (run (constructor data) queries))
                   (normalize query) = false ->
         JsMap.keys
           (searchCache
              (fst (performSearch (run (constructor data) queries) query)))
         = tl (JsMap.keys (searchCache (run (constructor data) queries)))
           ++ [normalize query]
         /\ JsMap.has
              (searchCache
                 (fst (performSearch (run (constructor data) queries) query)))
              firstKey = false)
  /\ (forall queries query,
         JsMap.has (searchCache (run (constructor data) queries))
                   (normalize query) = true ->
         fst (performSearch (run (constructor data) queries) query)
         = run (constructor data) queries).
Proof.
  pose proof (reached_constructor data) as Hinit.
  assert (Hrun : forall queries, reached data (run (constructor data) queries))
    by (intros; apply reached_run, Hinit).
  assert (Hfifo : forall queries,
             NoDup (map normalize queries) -> Forall nonblank queries ->
             JsMap.keys (searchCache (run (constructor data) queries))
             = skipn (List.length queries - 100) (map normalize queries)).
  { intros queries Hnodup Hblank.
    rewrite (run_keys data queries (constructor data) Hinit Hnodup Hblank).
    - reflexivity.
    - intros q _ []. }
  split; [|split; [exact Hfifo|split; [|split]]].
  - intros queries. apply (Hrun queries).
  - intros first rest Hnodup Hblank Hlen.
    assert (Hmiss : JsMap.has
                      (searchCache (run (constructor data) (first :: rest)))
                      (normalize first) = false).
    { apply has_false. rewrite (Hfifo _ Hnodup Hblank).
      cbn [List.length map].
      replace (S (List.length rest) - 100)
        with (S (List.length rest - 100)) by lia.
      cbn [skipn]. intros Hin%In_skipn.
      cbn [map] in Hnodup. apply NoDup_cons_iff in Hnodup. tauto. }
    apply Forall_cons_iff in Hblank as [Hfirst _].
    split; [exact Hmiss|split].
    + rewrite (performSearch_miss _ first Hfirst Hmiss). cbn [snd].
      destruct (Hrun (first :: rest)) as (-> & _). reflexivity.
    + rewrite (performSearch_miss (constructor data) first Hfirst);
        reflexivity.
  - intros queries query firstKey Hsize Hfirst Hq Hmiss.
    pose proof (miss_keys data _ query (Hrun queries) Hq Hmiss) as Hkeys.
    rewrite Hsize in Hkeys. cbn [Nat.leb] in Hkeys.
    split; [exact Hkeys|].
    apply has_false. rewrite Hkeys.
    destruct (Hrun queries) as (_ & _ & _ & Hnodup & _).
    apply has_false in Hmiss.
    destruct (searchCache (run (constructor data) queries)) as [|e m];
      [discriminate|].
    cbn [JsMap.first_key] in Hfirst. injection Hfirst as <-.
    cbn [JsMap.keys map tl] in *.
    apply NoDup_cons_iff in Hnodup as [Hhead _].
    rewrite in_app_iff. simpl. simpl in Hmiss. intuition.
  - intros queries query Hhit.
    destruct (String.length (trim query) =? 0) eqn:Hq.
    + unfold performSearch. rewrite Hq. reflexivity.
    + apply Nat.eqb_neq in Hq.
      destruct (performSearch_hit _ query Hq Hhit) as (v & _ & ->).
      reflexivity.
Qed.

(** The eviction part of [searchCache_bounded_fifo] on 101 distinct
    queries over a one-profile list: the first query, "q", is gone. *)
Lemma searchCache_bounded_fifo_witness :
  NoDup (map normalize (sample_queries 101))
  /\ Forall nonblank (sample_queries 101)
  /\ 100 <= List.length (tl (sample_queries 101))
  /\ JsMap.has (searchCache (run (constructor [sarah]) (sample_queries 101)))
               (normalize "q") = false.
Proof.
  assert (Hnodup : NoDup (map normalize (sample_queries 101)))
    by (apply distinctb_NoDup; vm_compute; reflexivity).
  assert (Hblank : Forall nonblank (sample_queries 101)).
  { apply Forall_forall. intros q Hq.
    assert (Hb : forallb (fun q => negb (String.length (trim q) =? 0))
                         (sample_queries 101) = true)
      by (vm_compute; reflexivity).
    rewrite forallb_forall in Hb. specialize (Hb q Hq).
    apply negb_true_iff, Nat.eqb_neq in Hb. exact Hb. }
  assert (Hlen : 100 <= List.length (tl (sample_queries 101)))
    by (vm_compute; lia).
  split; [exact Hnodup | split; [exact Hblank | split; [exact Hlen|]]].
  exact (proj1 (proj1 (proj2 (proj2 (searchCache_bounded_fifo [sarah])))
                      "q" (tl (sample_queries 101)) Hnodup Hblank Hlen)).
Defined.

(** [performSearch_repeat_from_cache] on "  Sarah " followed by "SARAH":
    the second call displays, from the cache, the list the first call
    computed. *)
Lemma performSearch_repeat_from_cache_witness :
  normalize "  Sarah " = normalize "SARAH"
  /\ exists results,
      snd (performSearch (constructor [sarah]) "  Sarah ")
      = Displayed results true
      /\ snd (performSearch (fst (performSearch (constructor [sarah])
                                                "  Sarah "))
                            "SARAH")
         = Displayed results false
      /\ JsMap.get (searchCache (fst (performSearch (constructor [sarah])
                                                    "  Sarah ")))
                   (normalize "SARAH")
         = Some results.
Proof.
  split; [reflexivity|].
  pose proof (performSearch_repeat_from_cache
                (constructor [sarah]) "  Sarah " "SARAH" eq_refl) as H.
  cbv zeta in H.
  set (first := performSearch (constructor [sarah]) "  Sarah ") in *.
  destruct H as (_ & _ & _ & _ & _ & Hshown).
  assert (Hq : String.length (trim "  Sarah ") <> 0)
    by (vm_compute; discriminate).
  assert (Hc : JsMap.has (searchCache (constructor [sarah]))
                         (normalize "  Sarah ") = false) by reflexivity.
  destruct (Hshown Hq) as (results & Hdisp & Hout2 & _ & Hget & Hmiss & _).
  specialize (Hmiss Hc).
  exists results. split; [|split; [exact Hout2 | exact Hget]].
  destruct (snd first); [discriminate|].
  cbn [displayed] in Hdisp. congruence.
Defined.

(** * Further properties *)

(** ** The distance as a metric *)

Section LevenshteinMetric.

Lemma cost_refl (a : list ascii) : cost a a = 0.
Proof.
  induction a as [|x a IH]; [reflexivity|].
  rewrite cost_cons, Ascii.eqb_refl. exact IH.
Qed.

Lemma cost_zero (a b : list ascii) : cost a b = 0 -> a = b.
Proof.
  revert b; induction a as [|x a IHa]; intros b.
  - destruct b; [reflexivity | discriminate].
  - destruct b as [|y b]; [discriminate|].
    rewrite cost_cons. destruct (Ascii.eqb y x) eqn:E.
    + apply Ascii.eqb_eq in E. intros H. f_equal; [congruence | now apply IHa].
    + unfold min3. lia.
Qed.

(** One more code unit on one side moves the cell by at most one. *)
Lemma cost_step_sized (n : nat) :
  forall a b x,
    List.length a + List.length b <= n ->
    cost (x :: a) b <= cost a b + 1 /\ cost a b <= cost (x :: a) b + 1.
Proof.
  induction n as [|n IH]; intros a b x Hn.
  - destruct a, b; simpl in *; lia.
  - destruct b as [|y b'].
    + rewrite !cost_nil_r. simpl. lia.
    + simpl in Hn.
      assert (Hb : cost a b' <= cost a (y :: b') + 1
                   /\ cost a (y :: b') <= cost a b' + 1).
      { rewrite (cost_sym a b'), (cost_sym a (y :: b')).
        destruct (IH b' a y) as [H1 H2]; [lia|]. lia. }
      destruct (IH a b' x) as [H1 H2]; [lia|].
      rewrite cost_cons. destruct (Ascii.eqb y x); unfold min3; lia.
Qed.

Lemma cost_step (a b : list ascii) (x : ascii) :
  cost (x :: a) b <= cost a b + 1 /\ cost a b <= cost (x :: a) b + 1.
Proof. apply (cost_step_sized (List.length a + List.length b)). lia. Qed.

Lemma cost_step_r (a b : list ascii) (y : ascii) :
  cost a (y :: b) <= cost a b + 1 /\ cost a b <= cost a (y :: b) + 1.
Proof.
  rewrite (cost_sym a (y :: b)), (cost_sym a b). apply cost_step.
Qed.

Lemma cost_triangle_sized (n : nat) :
  forall a b c,
    List.length a + List.length b + List.length c <= n ->
    cost a c <= cost a b + cost b c.
Proof.
  induction n as [|n IH]; intros a b c Hn.
  - destruct a, b, c; simpl in *; lia.
  - destruct a as [|x a'].
    { pose proof (cost_lower b c). cbn [cost List.length] in *. lia. }
    destruct c as [|z c'].
    { pose proof (cost_lower (x :: a') b). rewrite !cost_nil_r.
      cbn [List.length] in *. lia. }
    destruct b as [|y b'].
    { pose proof (cost_upper (x :: a') (z :: c')) as Hup.
      rewrite cost_nil_r. change (cost [] (z :: c')) with (S (List.length c')).
      cbn [List.length] in *. lia. }
    cbn [List.length] in Hn.
    assert (Ha : cost a' (z :: c')
                 <= cost a' (y :: b') + cost (y :: b') (z :: c'))
      by (apply IH; cbn [List.length]; lia).
    assert (Hc : cost (x :: a') c'
                 <= cost (x :: a') (y :: b') + cost (y :: b') c')
      by (apply IH; cbn [List.length]; lia).
    assert (Hb : cost (x :: a') (z :: c')
                 <= cost (x :: a') b' + cost b' (z :: c'))
      by (apply IH; cbn [List.length]; lia).
    assert (Hd : cost a' c' <= cost a' b' + cost b' c')
      by (apply IH; lia).
    pose proof (cost_step a' (z :: c') x) as [S1 _].
    pose proof (cost_step_r (x :: a') c' z) as [S2 _].
    pose proof (cost_step_r (x :: a') b' y) as [_ S3].
    pose proof (cost_step b' (z :: c') y) as [_ S4].
    pose proof (cost_cons x y a' b') as Eab.
    pose proof (cost_cons y z b' c') as Ebc.
    pose proof (cost_cons x z a' c') as Eac.
    destruct (Ascii.eqb y x) eqn:Exy, (Ascii.eqb z y) eqn:Eyz.
    + apply Ascii.eqb_eq in Exy, Eyz. subst.
      rewrite Ascii.eqb_refl in Eac. lia.
    + destruct (Ascii.eqb z x); unfold min3 in *; lia.
    + destruct (Ascii.eqb z x); unfold min3 in *; lia.
    + destruct (Ascii.eqb z x); unfold min3 in *; lia.
Qed.

Lemma cost_triangle (a b c : list ascii) : cost a c <= cost a b + cost b c.
Proof.
  apply (cost_triangle_sized (List.length a + List.length b + List.length c)).
  lia.
Qed.

Lemma chars_inj (a b : string) : chars a = chars b -> a = b.
Proof.
  unfold chars. intros H.
  rewrite <- (string_of_list_ascii_of_string a),
          <- (string_of_list_ascii_of_string b).
  now rewrite H.
Qed.

Lemma chars_app (a b : string) : chars (a ++ b)%string = chars a ++ chars b.
Proof. induction a as [|c a IH]; simpl; [reflexivity | now rewrite IH]. Qed.

End LevenshteinMetric.

(** X1. [levenshteinDistance] is 0 exactly for equal strings, and the
    distance to the empty string is the length of the other string. *)
Theorem levenshteinDistance_zero_iff (a b : string) :
  (levenshteinDistance a b = 0 <-> a = b)
  /\ levenshteinDistance a "" = String.length a
  /\ levenshteinDistance "" b = String.length b.
Proof.
  rewrite !levenshteinDistance_cost. repeat split.
  - intros H. apply cost_zero, rev_inj in H. now apply chars_inj.
  - intros ->. apply cost_refl.
  - cbn [chars list_ascii_of_string rev]. rewrite cost_nil_r, length_rev.
    apply length_chars.
  - cbn [chars list_ascii_of_string rev cost]. rewrite length_rev.
    apply length_chars.
Qed.

(** X2. [levenshteinDistance] satisfies the triangle inequality. *)
Theorem levenshteinDistance_triangle (a b c : string) :
  levenshteinDistance a c <= levenshteinDistance a b + levenshteinDistance b c.
Proof.
  rewrite !levenshteinDistance_cost. apply cost_triangle.
Qed.

(** X3. Appending one code unit to either string changes the distance
    by at most one. *)
Theorem levenshteinDistance_append_char (a b : string) (x : ascii) :
  levenshteinDistance (a ++ String x "") b <= levenshteinDistance a b + 1
  /\ levenshteinDistance a b <= levenshteinDistance (a ++ String x "") b + 1
  /\ levenshteinDistance a (b ++ String x "") <= levenshteinDistance a b + 1
  /\ levenshteinDistance a b <= levenshteinDistance a (b ++ String x "") + 1.
Proof.
  rewrite !levenshteinDistance_cost, !chars_app.
  cbn [chars list_ascii_of_string]. rewrite !rev_app_distr. cbn [rev app].
  pose proof (cost_step (rev (chars a)) (rev (chars b)) x).
  pose proof (cost_step_r (rev (chars a)) (rev (chars b)) x).
  lia.
Qed.

(** ** Similarity and fuzzy matching, continued *)

Section SimilarityFacts.

Lemma stringSimilarity_sym (a b : string) :
  stringSimilarity a b = stringSimilarity b a.
Proof.
  unfold stringSimilarity, pick_longer, pick_shorter.
  destruct (String.length b <? String.length a) eqn:E1,
           (String.length a <? String.length b) eqn:E2; try reflexivity.
  - apply Nat.ltb_lt in E1, E2. lia.
  - apply Nat.ltb_ge in E1, E2.
    assert (E : String.length a = String.length b) by lia.
    rewrite E, !levenshteinDistance_cost, (cost_sym (rev (chars b))).
    reflexivity.
Qed.

Lemma distance_zero_eq (a b : string) :
  levenshteinDistance a b = 0 <-> a = b.
Proof.
  rewrite levenshteinDistance_cost. split.
  - intros H. apply cost_zero, rev_inj in H. now apply chars_inj.
  - intros ->. apply cost_refl.
Qed.

Lemma picked_distance_le (a b : string) :
  levenshteinDistance (pick_longer a b) (pick_shorter a b)
  <= String.length (pick_longer a b).
Proof.
  destruct (pick_lengths a b) as [Hle _].
  pose proof (levenshteinDistance_upper (pick_longer a b) (pick_shorter a b)).
  lia.
Qed.

Lemma stringSimilarity_le_1 (a b : string) : (stringSimilarity a b <= 1)%Q.
Proof.
  unfold stringSimilarity.
  destruct (String.length (pick_longer a b) =? 0) eqn:E; [lra|].
  apply Nat.eqb_neq in E.
  apply ratio_unit; [lia | apply picked_distance_le].
Qed.

Lemma Qnat_inj_le (m n : nat) : (Qnat m <= Qnat n)%Q -> m <= n.
Proof. unfold Qnat. rewrite <- Zle_Qle. lia. Qed.

Lemma Qnat_plus (m n : nat) : (Qnat (m + n) == Qnat m + Qnat n)%Q.
Proof. unfold Qnat. now rewrite Nat2Z.inj_add, inject_Z_plus. Qed.

(** The quotient of [stringSimilarity] against a bound [p/q]. *)
Lemma ratio_gt (len distance : nat) (bound : Q) :
  0 < len ->
  (bound < (Qnat len - Qnat distance) / Qnat len)%Q <->
  (bound * Qnat len < Qnat len - Qnat distance)%Q.
Proof.
  intros Hlen. pose proof (Qnat_pos len Hlen) as Hpos. split; intros H.
  - apply (Qmult_lt_r _ _ (Qnat len)) in H; [|assumption].
    setoid_replace ((Qnat len - Qnat distance) / Qnat len * Qnat len)%Q
      with (Qnat len - Qnat distance)%Q in H by (field; lra).
    exact H.
  - apply Qlt_shift_div_l; assumption.
Qed.

End SimilarityFacts.

(** X4. [stringSimilarity] does not depend on the order of its two
    arguments, and it is 1 exactly when the two strings are equal. *)
Theorem stringSimilarity_symmetric_one_iff (a b : string) :
  stringSimilarity a b = stringSimilarity b a
  /\ ((stringSimilarity a b == 1)%Q <-> a = b).
Proof.
  split; [apply stringSimilarity_sym|].
  assert (Hpick : pick_longer a b = pick_shorter a b <-> a = b).
  { unfold pick_longer, pick_shorter.
    destruct (String.length b <? String.length a); split; congruence. }
  unfold stringSimilarity.
  destruct (String.length (pick_longer a b) =? 0) eqn:E.
  - apply Nat.eqb_eq in E. destruct (pick_lengths a b) as [Hle Hmax].
    split; [intros _ | reflexivity].
    destruct a, b; simpl in *; try lia. reflexivity.
  - apply Nat.eqb_neq in E.
    assert (Hlen : 0 < String.length (pick_longer a b)) by lia.
    pose proof (Qnat_pos _ Hlen) as Hpos.
    rewrite <- Hpick.
    rewrite <- distance_zero_eq.
    split; intros H.
    + assert (Hd : (Qnat (levenshteinDistance (pick_longer a b)
                                               (pick_shorter a b)) == 0)%Q).
      { apply (Qmult_inj_r _ _ (Qnat (String.length (pick_longer a b))))
          in H; [|lra].
        field_simplify in H; lra. }
      unfold Qnat, Qeq in Hd. cbn [Qnum Qden inject_Z] in Hd. lia.
    + rewrite H. unfold Qnat at 2. cbn [Z.of_nat]. field. lra.
Qed.

Section FuzzyBounds.

Variable text : string.

Lemma fuzzy_step_le (matches : Q) (keyword : string) :
  (fuzzy_step text matches keyword <= matches + 1)%Q.
Proof.
  unfold fuzzy_step. destruct (includes text keyword); [lra|].
  pose proof (stringSimilarity_le_1 text keyword).
  destruct (Qgtb (stringSimilarity text keyword) 0.7); lra.
Qed.

Lemma fuzzy_fold_le (keywords : list string) (matches : Q) :
  (fold_left (fuzzy_step text) keywords matches
   <= matches + Qnat (List.length keywords))%Q.
Proof.
  revert matches; induction keywords as [|k ks IH]; intros matches.
  - cbn [fold_left List.length]. change (Qnat 0) with 0%Q. lra.
  - cbn [fold_left List.length].
    pose proof (IH (fuzzy_step text matches k)) as H.
    pose proof (fuzzy_step_le matches k) as Hk.
    change (S (List.length ks)) with (1 + List.length ks).
    rewrite Qnat_plus. change (Qnat 1) with 1%Q. lra.
Qed.

Lemma fuzzy_fold_all (keywords : list string) (matches : Q) :
  forallb (includes text) keywords = true ->
  (fold_left (fuzzy_step text) keywords matches
   == matches + Qnat (List.length keywords))%Q.
Proof.
  revert matches; induction keywords as [|k ks IH]; intros matches Hall.
  - cbn [fold_left List.length]. change (Qnat 0) with 0%Q. lra.
  - cbn [forallb] in Hall. apply andb_true_iff in Hall as [Hk Hks].
    cbn [fold_left List.length]. rewrite (IH _ Hks).
    unfold fuzzy_step. rewrite Hk.
    change (S (List.length ks)) with (1 + List.length ks).
    rewrite Qnat_plus. change (Qnat 1) with 1%Q. lra.
Qed.

End FuzzyBounds.

(** X5. The cap in [fuzzyMatch] never takes effect: the accumulated
    [matches] never exceed the number of keywords, so the result is
    [matches / keywords.length] itself. *)
Theorem fuzzyMatch_cap_redundant (text : string) (keywords : list string) :
  (fold_left (fuzzy_step text) keywords 0 <= Qnat (List.length keywords))%Q
  /\ (fuzzyMatch text keywords
      == if (String.length text =? 0) || (List.length keywords =? 0) then 0
         else fold_left (fuzzy_step text) keywords 0
              / Qnat (List.length keywords))%Q.
Proof.
  pose proof (fuzzy_fold_le text keywords 0) as Hle.
  rewrite Qplus_0_l in Hle. split; [exact Hle|].
  unfold fuzzyMatch.
  destruct ((String.length text =? 0) || (List.length keywords =? 0)) eqn:E;
    [reflexivity|].
  apply orb_false_iff in E as [_ E]. apply Nat.eqb_neq in E.
  assert (Hpos : (0 < Qnat (List.length keywords))%Q) by (apply Qnat_pos; lia).
  apply Q.min_l. apply Qle_shift_div_r; [assumption | lra].
Qed.

(** X6. When the text is not empty and every keyword of a non-empty list
    occurs in it verbatim, [fuzzyMatch] is 1. *)
Theorem fuzzyMatch_all_contained (text : string) (keywords : list string) :
  String.length text <> 0 ->
  keywords <> [] ->
  forallb (includes text) keywords = true ->
  (fuzzyMatch text keywords == 1)%Q.
Proof.
  intros Htext Hkw Hall. unfold fuzzyMatch.
  assert (Hn : List.length keywords <> 0) by (destruct keywords; simpl; congruence).
  apply Nat.eqb_neq in Htext, Hn. rewrite Htext, Hn. cbn [orb].
  rewrite (fuzzy_fold_all text keywords 0 Hall), Qplus_0_l.
  apply Nat.eqb_neq in Hn.
  assert (Hpos : (0 < Qnat (List.length keywords))%Q) by (apply Qnat_pos; lia).
  setoid_replace (Qnat (List.length keywords) / Qnat (List.length keywords))%Q
    with 1%Q by (field; lra).
  apply Q.min_l. lra.
Qed.

Lemma fuzzyMatch_all_contained_witness :
  String.length "sarah chen" <> 0
  /\ ["sarah"; "chen"] <> []
  /\ forallb (includes "sarah chen") ["sarah"; "chen"] = true
  /\ (fuzzyMatch "sarah chen" ["sarah"; "chen"] == 1)%Q.
Proof.
  assert (H1 : String.length "sarah chen" <> 0) by (simpl; lia).
  assert (H2 : ["sarah"; "chen"] <> ([] : list string)) by discriminate.
  assert (H3 : forallb (includes "sarah chen") ["sarah"; "chen"] = true)
    by reflexivity.
  split; [exact H1 | split; [exact H2 | split; [exact H3|]]].
  exact (fuzzyMatch_all_contained "sarah chen" ["sarah"; "chen"] H1 H2 H3).
Defined.

(** X7. The partial-match branch of [fuzzyMatch] needs strings of close
    length: a keyword that is not contained in a non-empty text, and for
    which ten times the shorter length does not exceed seven times the
    longer, leaves [matches] as it is. *)
Theorem fuzzy_step_far_lengths (text keyword : string) (matches : Q) :
  String.length text <> 0 ->
  includes text keyword = false ->
  10 * Nat.min (String.length text) (String.length keyword)
  <= 7 * Nat.max (String.length text) (String.length keyword) ->
  fuzzy_step text matches keyword = matches.
Proof.
  intros Htext Hinc Hfar. unfold fuzzy_step. rewrite Hinc.
  destruct (Qgtb (stringSimilarity text keyword) 0.7) eqn:E; [|reflexivity].
  exfalso. apply Qgtb_true in E. unfold stringSimilarity in E.
  destruct (pick_lengths text keyword) as [Hle Hmax].
  pose proof (levenshteinDistance_lower (pick_longer text keyword)
                                        (pick_shorter text keyword)) as [Hlow _].
  assert (Hmin : String.length (pick_shorter text keyword)
                 = Nat.min (String.length text) (String.length keyword)).
  { unfold pick_shorter.
    destruct (String.length keyword <? String.length text) eqn:El;
      [apply Nat.ltb_lt in El | apply Nat.ltb_ge in El]; lia. }
  set (L := String.length (pick_longer text keyword)) in *.
  set (l := String.length (pick_shorter text keyword)) in *.
  set (d := levenshteinDistance (pick_longer text keyword)
                                (pick_shorter text keyword)) in *.
  assert (HL : 0 < L) by lia.
  destruct (L =? 0) eqn:E0; [apply Nat.eqb_eq in E0; lia|].
  apply ratio_gt in E; [|assumption].
  assert (H1 : (Qnat L <= Qnat d + Qnat l)%Q)
    by (rewrite <- Qnat_plus; apply Qnat_le; lia).
  assert (H2 : (Qnat (10 * l) <= Qnat (7 * L))%Q) by (apply Qnat_le; lia).
  assert (H10 : (Qnat (10 * l) == 10 * Qnat l)%Q).
  { unfold Qnat. rewrite Nat2Z.inj_mul, inject_Z_mult. reflexivity. }
  assert (H7 : (Qnat (7 * L) == 7 * Qnat L)%Q).
  { unfold Qnat. rewrite Nat2Z.inj_mul, inject_Z_mult. reflexivity. }
  lra.
Qed.

Lemma fuzzy_step_far_lengths_witness :
  String.length "sarah chen" <> 0
  /\ includes "sarah chen" "sarha" = false
  /\ 10 * Nat.min (String.length "sarah chen") (String.length "sarha")
     <= 7 * Nat.max (String.length "sarah chen") (String.length "sarha")
  /\ fuzzy_step "sarah chen" 0 "sarha" = 0%Q.
Proof.
  assert (H1 : String.length "sarah chen" <> 0) by (simpl; lia).
  assert (H2 : includes "sarah chen" "sarha" = false) by reflexivity.
  assert (H3 : 10 * Nat.min (String.length "sarah chen")
                            (String.length "sarha")
               <= 7 * Nat.max (String.length "sarah chen")
                              (String.length "sarha")) by (simpl; lia).
  split; [exact H1 | split; [exact H2 | split; [exact H3|]]].
  exact (fuzzy_step_far_lengths "sarah chen" "sarha" 0%Q H1 H2 H3).
Defined.

(** ** Substrings *)

Section SubstringFacts.

Lemma prefix_nil (text : string) : prefix EmptyString text = true.
Proof. destruct text; reflexivity. Qed.

Lemma prefix_intro (pat post : string) : prefix pat (pat ++ post) = true.
Proof.
  induction pat as [|c pat IH]; [apply prefix_nil|].
  cbn [prefix append]. destruct (ascii_dec c c); [exact IH | congruence].
Qed.

Lemma prefix_elim (pat text : string) :
  prefix pat text = true -> exists post, text = (pat ++ post)%string.
Proof.
  revert text; induction pat as [|c pat IH]; intros text H.
  - exists text. reflexivity.
  - destruct text as [|d text]; [discriminate|]. cbn [prefix] in H.
    destruct (ascii_dec c d) as [->|]; [|discriminate].
    destruct (IH text H) as [post ->]. exists post. reflexivity.
Qed.

Lemma includes_prefix (text pat : string) :
  prefix pat text = true -> includes text pat = true.
Proof. intros H. destruct text; cbn [includes]; now rewrite H. Qed.

Lemma includes_intro (pre pat post : string) :
  includes (pre ++ pat ++ post) pat = true.
Proof.
  induction pre as [|c pre IH].
  - apply includes_prefix. exact (prefix_intro pat post).
  - cbn [append includes]. rewrite IH. apply orb_true_r.
Qed.

Lemma includes_elim (text pat : string) :
  includes text pat = true ->
  exists pre post, text = (pre ++ pat ++ post)%string.
Proof.
  induction text as [|c text IH]; cbn [includes]; intros H.
  - rewrite orb_false_r in H. destruct (prefix_elim _ _ H) as [post Hpost].
    exists EmptyString, post. exact Hpost.
  - apply orb_true_iff in H as [H|H].
    + destruct (prefix_elim _ _ H) as [post Hpost].
      exists EmptyString, post. exact Hpost.
    + destruct (IH H) as (pre & post & ->).
      exists (String c pre), post. reflexivity.
Qed.

Lemma append_assoc (a b c : string) :
  ((a ++ b) ++ c = a ++ (b ++ c))%string.
Proof. induction a as [|x a IH]; simpl; [reflexivity | now rewrite IH]. Qed.

Lemma includes_app_l (a b pat : string) :
  includes a pat = true -> includes (a ++ b) pat = true.
Proof.
  intros H. destruct (includes_elim _ _ H) as (pre & post & ->).
  rewrite !append_assoc. apply includes_intro.
Qed.

Lemma includes_app_r (a b pat : string) :
  includes b pat = true -> includes (a ++ b) pat = true.
Proof.
  intros H. destruct (includes_elim _ _ H) as (pre & post & ->).
  rewrite <- append_assoc. apply includes_intro.
Qed.

Lemma toLowerCase_app (a b : string) :
  toLowerCase (a ++ b) = (toLowerCase a ++ toLowerCase b)%string.
Proof. induction a as [|c a IH]; simpl; [reflexivity | now rewrite IH]. Qed.

End SubstringFacts.

(** ** Keywords *)

Section KeywordFacts.

Lemma split_from_head (s : string) :
  exists tok rest post,
    split_from false s = tok :: rest
    /\ s = (tok ++ post)%string
    /\ spaceless tok = true.
Proof.
  induction s as [|c s IH].
  - exists EmptyString, [], EmptyString. repeat split.
  - cbn [split_from]. destruct (is_space c) eqn:E.
    + exists EmptyString, (split_from true s), (String c s). repeat split.
    + destruct IH as (tok & rest & post & -> & -> & Hs).
      exists (String c tok), rest, post. repeat split.
      cbn [spaceless]. now rewrite E, Hs.
Qed.

Lemma split_from_pieces (s : string) :
  forall in_sep tok,
    In tok (split_from in_sep s) ->
    spaceless tok = true
    /\ exists pre post, s = (pre ++ tok ++ post)%string.
Proof.
  induction s as [|c s IH]; intros in_sep tok Hin.
  - destruct Hin as [<-|[]]. split; [reflexivity|].
    exists EmptyString, EmptyString. reflexivity.
  - cbn [split_from] in Hin. destruct (is_space c) eqn:E.
    + assert (Hrest : In tok (split_from true s) ->
                      spaceless tok = true
                      /\ exists pre post,
                          String c s = (pre ++ tok ++ post)%string).
      { intros H. destruct (IH true tok H) as (Hs & pre & post & ->).
        split; [exact Hs|]. exists (String c pre), post. reflexivity. }
      destruct in_sep; [now apply Hrest|].
      destruct Hin as [<-|Hin]; [|now apply Hrest].
      split; [reflexivity|]. exists EmptyString, (String c s). reflexivity.
    + destruct (split_from_head s) as (tok0 & rest & post & Hsplit & Hs & Hsp).
      pose proof (IH false) as IHf. rewrite Hsplit in Hin, IHf.
      destruct Hin as [<-|Hin].
      * split; [cbn [spaceless]; now rewrite E, Hsp|].
        exists EmptyString, post. rewrite Hs. reflexivity.
      * destruct (IHf tok (or_intror Hin)) as (Hs' & pre & post' & Heq).
        split; [exact Hs'|]. exists (String c pre), post'.
        rewrite Heq. reflexivity.
Qed.

End KeywordFacts.

(** X8. Every keyword [extractSearchTerms] extracts is longer than two
    code units, contains no white space, and occurs in the lowercased
    query. *)
Theorem extractSearchTerms_keywords (query : string) :
  Forall (fun keyword =>
            2 < String.length keyword
            /\ spaceless keyword = true
            /\ includes (toLowerCase query) keyword = true)
         (keywords (extractSearchTerms query)).
Proof.
  apply Forall_forall. intros keyword Hin.
  unfold extractSearchTerms in Hin. cbn [keywords] in Hin.
  apply filter_In in Hin as [Hin Hlen]. apply Nat.ltb_lt in Hlen.
  destruct (split_from_pieces _ _ _ Hin) as (Hs & pre & post & Heq).
  repeat split; try assumption.
  rewrite Heq. apply includes_intro.
Qed.

(** ** The score as a sum of independent blocks *)

Section ScoreSum.

Variable searchTerms : SearchTerms.

Ltac additive :=
  repeat match goal with
         | |- context [if ?b then _ else _] => destruct b
         | |- context [match ?o with Some _ => _ | None => _ end] =>
             destruct o
         end;
  ring.

Lemma score_exact_add personal professional originalQuery (score : Q) :
  (score_exact personal professional originalQuery score
   == score + score_exact personal professional originalQuery 0)%Q.
Proof. unfold score_exact. additive. Qed.

Lemma score_name_add personal (score : Q) :
  (score_name personal searchTerms score
   == score + score_name personal searchTerms 0)%Q.
Proof. unfold score_name. destruct (truthy (name personal)); ring. Qed.

Lemma score_role_add professional (score : Q) :
  (score_role professional searchTerms score
   == score + score_role professional searchTerms 0)%Q.
Proof.
  unfold score_role. destruct (truthy (current_role professional)); [|ring].
  cbv zeta. destruct (existsb _ _); ring.
Qed.

Lemma score_company_add professional (score : Q) :
  (score_company professional searchTerms score
   == score + score_company professional searchTerms 0)%Q.
Proof. unfold score_company. destruct (truthy (company professional)); ring. Qed.

Lemma score_industry_add professional (score : Q) :
  (score_industry professional searchTerms score
   == score + score_industry professional searchTerms 0)%Q.
Proof. unfold score_industry. additive. Qed.

Lemma score_expertise_add professional (score : Q) :
  (score_expertise professional searchTerms score
   == score + score_expertise professional searchTerms 0)%Q.
Proof.
  unfold score_expertise. destruct (expertise_tags professional); ring.
Qed.

Lemma score_location_add personal (score : Q) :
  (score_location personal searchTerms score
   == score + score_location personal searchTerms 0)%Q.
Proof. unfold score_location. additive. Qed.

Lemma score_networking_add networking (score : Q) :
  (score_networking networking searchTerms score
   == score + score_networking networking searchTerms 0)%Q.
Proof.
  unfold score_networking.
  destruct (net_goals networking), (net_offering networking); additive.
Qed.

Lemma rawScore_sum alumni originalQuery :
  (rawScore alumni searchTerms originalQuery
   == score_exact (or_empty (personal alumni) no_personal)
                  (or_empty (professional alumni) no_professional)
                  originalQuery 0
      + score_name (or_empty (personal alumni) no_personal) searchTerms 0
      + score_role (or_empty (professional alumni) no_professional)
                   searchTerms 0
      + score_company (or_empty (professional alumni) no_professional)
                      searchTerms 0
      + score_industry (or_empty (professional alumni) no_professional)
                       searchTerms 0
      + score_expertise (or_empty (professional alumni) no_professional)
                        searchTerms 0
      + score_location (or_empty (personal alumni) no_personal) searchTerms 0
      + score_networking (or_empty (networking alumni) no_networking)
                         searchTerms 0)%Q.
Proof.
  unfold rawScore. cbv zeta.
  rewrite score_networking_add, score_location_add, score_expertise_add,
    score_industry_add, score_company_add, score_role_add, score_name_add.
  ring.
Qed.

Lemma score_location_le personal :
  (score_location personal searchTerms 0 <= 0.1)%Q.
Proof.
  unfold score_location. destruct (location personal); [|lra].
  destruct (existsb _ _); unfold Weights.location; lra.
Qed.

End ScoreSum.

Section ScoreGuarantees.

Variable alumniData : list Alumni.
Variable query : string.

Lemma found_above_threshold (alumni : Alumni) :
  In alumni alumniData ->
  (0.1 < calculateRelevanceScore alumni (extractSearchTerms query) query)%Q ->
  In alumni (map profile (performLocalSearch alumniData query)).
Proof.
  intros Hin Hgt. apply in_map_iff.
  exists {| profile := alumni;
            searchRelevance :=
              calculateRelevanceScore alumni (extractSearchTerms query) query;
            searchQuery := query |}.
  split; [reflexivity|].
  apply performLocalSearch_In. exists alumni.
  repeat split; [assumption | now apply Qgtb_true].
Qed.

Lemma score_at_least (alumni : Alumni) (bound : Q) :
  (bound <= 1)%Q ->
  (bound <= rawScore alumni (extractSearchTerms query) query)%Q ->
  (bound <= calculateRelevanceScore alumni (extractSearchTerms query) query)%Q.
Proof.
  intros H1 H2. unfold calculateRelevanceScore. now apply Q.min_glb.
Qed.

Lemma rawScore_ge_exact (alumni : Alumni) :
  (score_exact (or_empty (personal alumni) no_personal)
               (or_empty (professional alumni) no_professional) query 0
   <= rawScore alumni (extractSearchTerms query) query)%Q.
Proof.
  rewrite (rawScore_sum (extractSearchTerms query) alumni query).
  set (t := extractSearchTerms query).
  pose proof (score_name_nonneg t (or_empty (personal alumni) no_personal) 0).
  pose proof (score_role_nonneg t (or_empty (professional alumni) no_professional) 0).
  pose proof (score_company_nonneg t (or_empty (professional alumni) no_professional) 0).
  pose proof (score_industry_nonneg t (or_empty (professional alumni) no_professional) 0).
  pose proof (score_expertise_nonneg t (or_empty (professional alumni) no_professional) 0).
  pose proof (score_location_nonneg t (or_empty (personal alumni) no_personal) 0).
  pose proof (score_networking_nonneg t (or_empty (networking alumni) no_networking) 0).
  lra.
Qed.

Lemma rawScore_ge_industry (alumni : Alumni) :
  (score_industry (or_empty (professional alumni) no_professional)
                  (extractSearchTerms query) 0
   <= rawScore alumni (extractSearchTerms query) query)%Q.
Proof.
  rewrite (rawScore_sum (extractSearchTerms query) alumni query).
  set (t := extractSearchTerms query).
  pose proof (score_exact_nonneg (or_empty (personal alumni) no_personal)
                (or_empty (professional alumni) no_professional) query 0).
  pose proof (score_name_nonneg t (or_empty (personal alumni) no_personal) 0).
  pose proof (score_role_nonneg t (or_empty (professional alumni) no_professional) 0).
  pose proof (score_company_nonneg t (or_empty (professional alumni) no_professional) 0).
  pose proof (score_expertise_nonneg t (or_empty (professional alumni) no_professional) 0).
  pose proof (score_location_nonneg t (or_empty (personal alumni) no_personal) 0).
  pose proof (score_networking_nonneg t (or_empty (networking alumni) no_networking) 0).
  lra.
Qed.

End ScoreGuarantees.

(** X9. A profile of the list whose name, role, company, industry or
    city contains the query, letter case aside, scores at least 0.5 and
    is returned by the local search. *)
Theorem whole_query_match_found
        (alumniData : list Alumni) (query : string) (alumni : Alumni)
        (field : string) :
  In alumni alumniData ->
  In (Some field)
     [name (or_empty (personal alumni) no_personal);
      current_role (or_empty (professional alumni) no_professional);
      company (or_empty (professional alumni) no_professional);
      industry (or_empty (professional alumni) no_professional);
      field_of (location (or_empty (personal alumni) no_personal)) city] ->
  includes (toLowerCase field) (toLowerCase query) = true ->
  (0.5 <= calculateRelevanceScore alumni (extractSearchTerms query) query)%Q
  /\ In alumni (map profile (performLocalSearch alumniData query)).
Proof.
  intros Hin Hfield Hinc.
  assert (Hfull : includes (fullText (or_empty (personal alumni) no_personal)
                                     (or_empty (professional alumni)
                                               no_professional))
                           (toLowerCase query) = true).
  { unfold fullText. rewrite !toLowerCase_app.
    fold (field_of (location (or_empty (personal alumni) no_personal)) city).
    cbn [In] in Hfield.
    destruct Hfield as [H|[H|[H|[H|[H|[]]]]]]; rewrite H; cbn [interpolate].
    - now apply includes_app_l.
    - now apply includes_app_r, includes_app_r, includes_app_l.
    - do 4 apply includes_app_r. now apply includes_app_l.
    - do 6 apply includes_app_r. now apply includes_app_l.
    - do 8 apply includes_app_r. assumption. }
  assert (Hscore : (0.5 <= calculateRelevanceScore
                             alumni (extractSearchTerms query) query)%Q).
  { apply score_at_least; [lra|].
    eapply Qle_trans; [|apply rawScore_ge_exact].
    unfold score_exact. rewrite Hfull. unfold Weights.exact. lra. }
  split; [exact Hscore|].
  apply found_above_threshold; [assumption | lra].
Qed.

Lemma whole_query_match_found_witness :
  In sarah [sarah]
  /\ In (Some "Sarah Chen")
        [name (or_empty (personal sarah) no_personal);
         current_role (or_empty (professional sarah) no_professional);
         company (or_empty (professional sarah) no_professional);
         industry (or_empty (professional sarah) no_professional);
         field_of (location (or_empty (personal sarah) no_personal)) city]
  /\ includes (toLowerCase "Sarah Chen") (toLowerCase "CHEN") = true
  /\ (0.5 <= calculateRelevanceScore sarah (extractSearchTerms "CHEN") "CHEN")%Q
  /\ In sarah (map profile (performLocalSearch [sarah] "CHEN")).
Proof.
  assert (H1 : In sarah [sarah]) by (now left).
  assert (H2 : In (Some "Sarah Chen")
                  [name (or_empty (personal sarah) no_personal);
                   current_role (or_empty (professional sarah) no_professional);
                   company (or_empty (professional sarah) no_professional);
                   industry (or_empty (professional sarah) no_professional);
                   field_of (location (or_empty (personal sarah) no_personal))
                            city]) by (now left).
  assert (H3 : includes (toLowerCase "Sarah Chen") (toLowerCase "CHEN") = true)
    by reflexivity.
  split; [exact H1 | split; [exact H2 | split; [exact H3|]]].
  exact (whole_query_match_found [sarah] "CHEN" sarah "Sarah Chen" H1 H2 H3).
Defined.

(** X10. A profile of the list whose industry is one of the vocabulary
    industries the query mentions scores at least 0.15 and is returned by
    the local search. *)
Theorem industry_match_found
        (alumniData : list Alumni) (query : string) (alumni : Alumni)
        (ind : string) :
  In alumni alumniData ->
  industry (or_empty (professional alumni) no_professional) = Some ind ->
  In ind (matchedIndustries (extractSearchTerms query)) ->
  (0.15 <= calculateRelevanceScore alumni (extractSearchTerms query) query)%Q
  /\ In alumni (map profile (performLocalSearch alumniData query)).
Proof.
  intros Hin Hind Hmatched.
  assert (Hne : ind <> "").
  { unfold extractSearchTerms in Hmatched. cbn [matchedIndustries] in Hmatched.
    apply filter_In in Hmatched as [Hvoc _].
    unfold industry_vocabulary in Hvoc. simpl in Hvoc.
    repeat destruct Hvoc as [<-|Hvoc]; try discriminate. contradiction. }
  assert (Hscore : (0.15 <= calculateRelevanceScore
                              alumni (extractSearchTerms query) query)%Q).
  { apply score_at_least; [lra|].
    eapply Qle_trans; [|apply rawScore_ge_industry].
    unfold score_industry. rewrite Hind.
    assert (Ht : truthy (Some ind) = true)
      by (destruct ind; [congruence | reflexivity]).
    rewrite Ht. cbn [interpolate].
    assert (E : existsb (String.eqb ind)
                        (matchedIndustries (extractSearchTerms query)) = true).
    { apply existsb_exists. exists ind. split; [assumption|].
      apply String.eqb_refl. }
    rewrite E. unfold Weights.industry. lra. }
  split; [exact Hscore|].
  apply found_above_threshold; [assumption | lra].
Qed.

Lemma industry_match_found_witness :
  In sarah [sarah]
  /\ industry (or_empty (professional sarah) no_professional)
     = Some "technology"
  /\ In "technology"
        (matchedIndustries (extractSearchTerms "Technology people"))
  /\ (0.15 <= calculateRelevanceScore
                sarah (extractSearchTerms "Technology people")
                "Technology people")%Q
  /\ In sarah (map profile (performLocalSearch [sarah] "Technology people")).
Proof.
  assert (H1 : In sarah [sarah]) by (now left).
  assert (H3 : In "technology"
                  (matchedIndustries (extractSearchTerms "Technology people")))
    by (vm_compute; auto).
  split; [exact H1 | split; [reflexivity | split; [exact H3|]]].
  exact (industry_match_found [sarah] "Technology people" sarah "technology"
                              H1 eq_refl H3).
Defined.

(** X11. A location match alone never suffices: for every result of the
    local search, the blocks other than the location block contribute a
    positive amount. *)
Theorem location_alone_not_found (alumniData : list Alumni) (query : string) :
  Forall (fun r =>
            let personal := or_empty (personal (profile r)) no_personal in
            let professional :=
              or_empty (professional (profile r)) no_professional in
            let networking := or_empty (networking (profile r)) no_networking in
            let searchTerms := extractSearchTerms query in
            (0 < score_exact personal professional query 0
                 + score_name personal searchTerms 0
                 + score_role professional searchTerms 0
                 + score_company professional searchTerms 0
                 + score_industry professional searchTerms 0
                 + score_expertise professional searchTerms 0
                 + score_networking networking searchTerms 0)%Q)
         (performLocalSearch alumniData query).
Proof.
  apply Forall_forall. intros r Hr.
  apply performLocalSearch_In in Hr as (a & _ & Hgt & ->).
  apply Qgtb_true in Hgt. cbn [profile]. cbv zeta.
  unfold calculateRelevanceScore in Hgt.
  assert (Hraw : (0.1 < rawScore a (extractSearchTerms query) query)%Q).
  { eapply Qlt_le_trans; [exact Hgt | apply Q.le_min_l]. }
  rewrite (rawScore_sum (extractSearchTerms query) a query) in Hraw.
  pose proof (score_location_le (extractSearchTerms query)
                                (or_empty (personal a) no_personal)).
  lra.
Qed.

(** ** The local search loses and invents nothing *)

Section SortPermutation.

Lemma insert_perm (x : ScoredResult) (l : list ScoredResult) :
  Permutation (insert byRelevanceDesc x l) (x :: l).
Proof.
  induction l as [|y l IH]; cbn [insert]; [reflexivity|].
  destruct (Qle_bool (byRelevanceDesc x y) 0); [reflexivity|].
  rewrite IH. apply perm_swap.
Qed.

Lemma sort_perm (l : list ScoredResult) :
  Permutation (sort byRelevanceDesc l) l.
Proof.
  induction l as [|x l IH]; cbn [sort]; [reflexivity|].
  rewrite insert_perm. now apply perm_skip.
Qed.

End SortPermutation.

(** X12. The result of the local search is a rearrangement of the
    profiles of the list that score above 0.1, each paired with its score
    and the raw query: no such profile is lost or repeated, and the
    result is never longer than the profile list (empty for an empty
    list). *)
Theorem performLocalSearch_permutation
        (alumniData : list Alumni) (query : string) :
  Permutation
    (performLocalSearch alumniData query)
    (map (fun alumni =>
            {| profile := alumni;
               searchRelevance :=
                 calculateRelevanceScore alumni (extractSearchTerms query)
                                         query;
               searchQuery := query |})
         (filter (fun alumni =>
                    Qgtb (calculateRelevanceScore
                            alumni (extractSearchTerms query) query) 0.1%Q)
                 alumniData))
  /\ List.length (performLocalSearch alumniData query)
     <= List.length alumniData
  /\ Forall (fun r => searchQuery r = query)
            (performLocalSearch alumniData query).
Proof.
  rewrite performLocalSearch_unfold.
  split; [apply sort_perm | split].
  - rewrite (Permutation_length (sort_perm _)), length_map.
    apply filter_length_le.
  - apply Forall_forall. intros r Hr. apply (proj1 (sort_In _ _)) in Hr.
    apply in_map_iff in Hr as (a & <- & _). reflexivity.
Qed.

(** ** The fallback search is subsumed by the local search *)

Lemma basicSearchText_prefix (alumni : Alumni) :
  exists rest,
    fullText (or_empty (personal alumni) no_personal)
             (or_empty (professional alumni) no_professional)
    = (basicSearchText alumni ++ rest)%string.
Proof.
  unfold fullText, basicSearchText.
  assert (Hn : name (or_empty (personal alumni) no_personal)
               = field_of (personal alumni) name)
    by (destruct (personal alumni); reflexivity).
  assert (Hr : current_role (or_empty (professional alumni) no_professional)
               = field_of (professional alumni) current_role)
    by (destruct (professional alumni); reflexivity).
  assert (Hc : company (or_empty (professional alumni) no_professional)
               = field_of (professional alumni) company)
    by (destruct (professional alumni); reflexivity).
  rewrite Hn, Hr, Hc, !toLowerCase_app.
  eexists. rewrite !append_assoc. reflexivity.
Qed.

(** X13. Every profile the fallback search of the application finds for
    a non-blank query is also found by the local search. *)
Theorem performBasicSearch_subsumed
        (alumniData : list Alumni) (query : string) :
  String.length (trim query) <> 0 ->
  incl (performBasicSearch alumniData query)
       (map profile (performLocalSearch alumniData query)).
Proof.
  intros Hq alumni Hin. unfold performBasicSearch in Hin.
  apply Nat.eqb_neq in Hq. rewrite Hq in Hin.
  apply filter_In in Hin as [Hin Hinc].
  apply found_above_threshold; [assumption|].
  assert (Hscore : (0.5 <= calculateRelevanceScore
                             alumni (extractSearchTerms query) query)%Q).
  { apply score_at_least; [lra|].
    eapply Qle_trans; [|apply rawScore_ge_exact].
    unfold score_exact.
    destruct (basicSearchText_prefix alumni) as [rest ->].
    rewrite (includes_app_l _ rest _ Hinc). unfold Weights.exact. lra. }
  lra.
Qed.

Lemma performBasicSearch_subsumed_witness :
  String.length (trim "chen") <> 0
  /\ incl (performBasicSearch [sarah; founder_only] "chen")
          (map profile (performLocalSearch [sarah; founder_only] "chen")).
Proof.
  assert (H : String.length (trim "chen") <> 0) by (vm_compute; lia).
  split; [exact H|].
  exact (performBasicSearch_subsumed [sarah; founder_only] "chen" H).
Defined.

(** ** What the cache holds *)

Section CacheCoherence.

Variable data : list Alumni.

(** An entry stands for a non-blank query of [queries] with the entry's
    key as normalized form and the entry's value as local search result. *)
Let justified (queries : list string)
    (e : string * list ScoredResult) : Prop :=
  exists q, In q queries /\ nonblank q /\ normalize q = fst e
            /\ snd e = performLocalSearch data q.

Lemma justified_more (qs qs' : list string) e :
  justified qs e -> justified (qs ++ qs') e.
Proof.
  intros (q & Hq & H). exists q. split; [|exact H].
  apply in_or_app. now left.
Qed.

Lemma run_coherent (queries : list string) :
  forall (this : SearchManager) (past : list string),
    reached data this ->
    Forall (justified past) (searchCache this) ->
    Forall (justified (past ++ queries)) (searchCache (run this queries)).
Proof.
  induction queries as [|q qs IH]; intros this past Hr Hcoh.
  - cbn [run fold_left]. now rewrite app_nil_r.
  - cbn [run fold_left]. fold (run (fst (performSearch this q)) qs).
    replace (past ++ q :: qs) with ((past ++ [q]) ++ qs)
      by (rewrite <- app_assoc; reflexivity).
    apply IH; [apply reached_step, Hr|].
    assert (Hold : Forall (justified (past ++ [q])) (searchCache this)).
    { eapply Forall_impl; [|exact Hcoh]. intros e. apply justified_more. }
    destruct (String.length (trim q) =? 0) eqn:Hq.
    + unfold performSearch. rewrite Hq. exact Hold.
    + apply Nat.eqb_neq in Hq.
      destruct (JsMap.has (searchCache this) (normalize q)) eqn:Hc.
      * destruct (performSearch_hit this q Hq Hc) as (v & _ & ->). exact Hold.
      * rewrite (performSearch_miss this q Hq Hc). cbn [fst].
        rewrite (miss_cache data this q Hr Hc).
        apply Forall_app. split.
        -- destruct (100 <=? JsMap.size (searchCache this)); [|exact Hold].
           destruct (searchCache this); [constructor|].
           now apply Forall_inv_tail in Hold.
        -- constructor; [|constructor].
           exists q. repeat split; [|assumption].
           apply in_or_app. right. now left.
Qed.

Lemma get_In {V} (m : JsMap.t V) (k : string) (v : V) :
  JsMap.get m k = Some v -> In (k, v) m.
Proof.
  unfold JsMap.get. induction m as [|[k' v'] m IH]; cbn [find fst].
  - discriminate.
  - destruct (String.eqb k' k) eqn:E.
    + apply String.eqb_eq in E. cbn. intros [= ->]. left. now subst.
    + intros H. right. now apply IH.
Qed.

End CacheCoherence.

(** X14. After any session every cache entry is justified by a query of
    the session: its key is the normalized form of a non-blank query that
    was searched, and its value is the local search result of that query.
    Hence whatever a further call displays is the local search result of
    a query, its own or an earlier one, with the same normalized form. *)
Theorem searchCache_coherent (data : list Alumni) (queries : list string) :
  Forall (fun e =>
            exists q, In q queries /\ nonblank q /\ normalize q = fst e
                      /\ snd e = performLocalSearch data q)
         (searchCache (run (constructor data) queries))
  /\ forall query results computed,
      snd (performSearch (run (constructor data) queries) query)
      = Displayed results computed ->
      exists q, In q (queries ++ [query])
                /\ normalize q = normalize query
                /\ results = performLocalSearch data q.
Proof.
  pose proof (run_coherent data queries (constructor data) []
                (reached_constructor data) (Forall_nil _)) as Hcoh.
  cbn [app] in Hcoh. split; [exact Hcoh|].
  intros query results computed Hout.
  pose proof (reached_run data queries _ (reached_constructor data))
    as (Hdata & _).
  set (this := run (constructor data) queries) in *.
  destruct (String.length (trim query) =? 0) eqn:Hq.
  - unfold performSearch in Hout. rewrite Hq in Hout. discriminate.
  - apply Nat.eqb_neq in Hq.
    destruct (JsMap.has (searchCache this) (normalize query)) eqn:Hc.
    + destruct (performSearch_hit this query Hq Hc) as (v & Hv & Heq).
      rewrite Heq in Hout. cbn [snd] in Hout. injection Hout as <- _.
      apply get_In in Hv.
      apply (proj1 (Forall_forall _ _) Hcoh) in Hv as (q & Hin & _ & Hn & Hres).
      exists q. cbn [fst snd] in *. repeat split; try assumption.
      apply in_or_app. now left.
    + rewrite (performSearch_miss this query Hq Hc) in Hout.
      cbn [snd] in Hout. injection Hout as <- _.
      exists query. rewrite Hdata. repeat split.
      apply in_or_app. right. now left.
Qed.

(** ** The search history *)

Section HistoryFacts.

Lemma firstn_short {A} (n : nat) (l : list A) :
  (if n <? List.length l then firstn n l else l) = firstn n l.
Proof.
  destruct (n <? List.length l) eqn:E; [reflexivity|].
  apply Nat.ltb_ge in E. symmetry. now apply firstn_all2.
Qed.

(** The new history: the entry, then the first 19 of the others. *)
Lemma addToSearchHistory_shape history query count now :
  addToSearchHistory history query count now
  = {| History.query := query; History.resultCount := count;
       History.timestamp := now |}
    :: firstn 19 (filter (fun item =>
                            negb (String.eqb (History.query item) query))
                         history).
Proof.
  unfold addToSearchHistory. cbv zeta. rewrite firstn_short. reflexivity.
Qed.

(** The first [n] elements are elements, and distinct if all are. *)
Lemma firstn_subset {A} (n : nat) : forall (l : list A) (x : A),
  In x (firstn n l) -> In x l.
Proof.
  induction n as [|n IH]; intros [|y l] x; cbn [firstn]; try contradiction.
  intros [->|H]; [now left | right; now apply IH].
Qed.

Lemma firstn_distinct {A} (n : nat) : forall l : list A,
  NoDup l -> NoDup (firstn n l).
Proof.
  induction n as [|n IH]; intros [|y l] H; cbn [firstn]; try constructor.
  - apply NoDup_cons_iff in H as [Hy _]. intros Hin. apply Hy.
    now apply (firstn_subset n).
  - apply IH. now apply NoDup_cons_iff in H as [_ H].
Qed.

(** Dropping entries keeps their keys distinct. *)
Lemma filter_keeps_distinct {A B} (key : A -> B) (keep : A -> bool) :
  forall entries : list A,
    NoDup (map key entries) -> NoDup (map key (filter keep entries)).
Proof.
  intros entries; induction entries as [|e entries IH]; cbn [map filter];
    intros H; [constructor|].
  apply NoDup_cons_iff in H as [He Hrest].
  destruct (keep e); [|now apply IH].
  cbn [map]. constructor; [|now apply IH].
  intros Hin. apply He. apply in_map_iff in Hin as (e' & Hkey & Hin).
  apply in_map_iff. exists e'. split; [assumption|].
  now apply filter_In in Hin.
Qed.

Lemma addToSearchHistory_NoDup history query count now :
  NoDup (map History.query history) ->
  NoDup (map History.query (addToSearchHistory history query count now)).
Proof.
  intros H. rewrite addToSearchHistory_shape. cbn [map History.query].
  constructor.
  - intros Hin. apply in_map_iff in Hin as (item & Hq & Hin).
    apply firstn_subset, filter_In in Hin as [_ Hne].
    apply negb_true_iff, String.eqb_neq in Hne. contradiction.
  - rewrite <- firstn_map. apply firstn_distinct, filter_keeps_distinct, H.
Qed.

Lemma addToSearchHistory_length history query count now :
  List.length (addToSearchHistory history query count now) <= 20.
Proof.
  rewrite addToSearchHistory_shape. cbn [List.length].
  pose proof (firstn_le_length 19
                (filter (fun item =>
                           negb (String.eqb (History.query item) query))
                        history)).
  lia.
Qed.

End HistoryFacts.

(** X15. [addToSearchHistory] puts the new entry first, keeps the history
    at 20 entries at most, leaves exactly one entry for the query, keeps
    only earlier entries of other queries behind it, and keeps the
    queries of the history distinct when they were. *)
Theorem addToSearchHistory_newest_first
        (history : list History.entry) (query : string) (count now : nat) :
  hd_error (addToSearchHistory history query count now)
  = Some {| History.query := query; History.resultCount := count;
            History.timestamp := now |}
  /\ List.length (addToSearchHistory history query count now) <= 20
  /\ List.length
       (filter (fun item => String.eqb (History.query item) query)
               (addToSearchHistory history query count now)) = 1
  /\ Forall (fun item => In item history /\ History.query item <> query)
            (tl (addToSearchHistory history query count now))
  /\ (NoDup (map History.query history) ->
      NoDup (map History.query
                 (addToSearchHistory history query count now))).
Proof.
  split; [|split; [apply addToSearchHistory_length|split; [|split]]].
  - now rewrite addToSearchHistory_shape.
  - rewrite addToSearchHistory_shape. cbn [filter History.query].
    rewrite String.eqb_refl. cbn [List.length]. f_equal.
    apply length_zero_iff_nil.
    destruct (filter _ (firstn 19 _)) as [|item l] eqn:E; [reflexivity|].
    assert (Hin : In item (item :: l)) by (now left).
    rewrite <- E in Hin. apply filter_In in Hin as [Hin Heq].
    apply firstn_subset, filter_In in Hin as [_ Hne].
    rewrite Heq in Hne. discriminate.
  - rewrite addToSearchHistory_shape. cbn [tl].
    apply Forall_forall. intros item Hin.
    apply firstn_subset, filter_In in Hin as [Hin Hne].
    apply negb_true_iff, String.eqb_neq in Hne. split; assumption.
  - apply addToSearchHistory_NoDup.
Qed.

(** X16. [getHistorySuggestions] gives at most three suggestions, all of
    type "history", each the query of a history entry that contains the
    typed text, letter case aside; right after a query was added to the
    history, every text it contains gets that query as first
    suggestion. *)
Theorem getHistorySuggestions_recent_first
        (history : list History.entry) (typed : string) :
  List.length (getHistorySuggestions history typed) <= 3
  /\ Forall (fun s =>
               Suggestion.type s = "history"
               /\ In (Suggestion.text s) (map History.query history)
               /\ includes (toLowerCase (Suggestion.text s))
                           (toLowerCase typed) = true)
            (getHistorySuggestions history typed)
  /\ forall query count now,
      includes (toLowerCase query) (toLowerCase typed) = true ->
      hd_error (getHistorySuggestions
                  (addToSearchHistory history query count now) typed)
      = Some {| Suggestion.text := query; Suggestion.type := "history";
                Suggestion.icon := IconClock |}.
Proof.
  split; [|split].
  - unfold getHistorySuggestions. apply firstn_le_length.
  - apply Forall_forall. intros s Hin. unfold getHistorySuggestions in Hin.
    apply firstn_subset, in_map_iff in Hin as (item & <- & Hin).
    apply filter_In in Hin as [Hin Hinc]. cbn.
    repeat split; [|assumption]. now apply in_map.
  - intros query count now Hinc.
    rewrite addToSearchHistory_shape. unfold getHistorySuggestions.
    cbn [filter History.query]. rewrite Hinc. reflexivity.
Qed.

(** ** [performSearch] and the history *)

Section LoggedFacts.

Lemma performSearchLogged_refines this query isLiveSearch now :
  (manager (fst (performSearchLogged this query isLiveSearch now)),
   snd (performSearchLogged this query isLiveSearch now))
  = performSearch (manager this) query.
Proof.
  unfold performSearchLogged, performSearch.
  destruct (String.length (trim query) =? 0); [reflexivity|]. cbv zeta.
  destruct (JsMap.has (searchCache (manager this)) (normalize query));
    [|reflexivity].
  destruct (JsMap.get (searchCache (manager this)) (normalize query));
    reflexivity.
Qed.

Lemma performSearchLogged_history this query isLiveSearch now :
  searchHistory (fst (performSearchLogged this query isLiveSearch now))
  = match snd (performSearch (manager this) query) with
    | Displayed results true =>
        if isLiveSearch then searchHistory this
        else addToSearchHistory (searchHistory this) query
                                (List.length results) now
    | _ => searchHistory this
    end.
Proof.
  unfold performSearchLogged, performSearch.
  destruct (String.length (trim query) =? 0); [reflexivity|]. cbv zeta.
  destruct (JsMap.has (searchCache (manager this)) (normalize query));
    [|reflexivity].
  destruct (JsMap.get (searchCache (manager this)) (normalize query));
    reflexivity.
Qed.

End LoggedFacts.

Section HistoryJustified.

Variable data : list Alumni.

(** An entry stands for a non-live call of [calls]: it carries the
    call's non-blank query and clock reading, and the number of results
    the local search gives for that query. *)
Let recorded (calls : list (string * bool * nat)) (entry : History.entry)
  : Prop :=
  nonblank (History.query entry)
  /\ History.resultCount entry
     = List.length (performLocalSearch data (History.query entry))
  /\ In (History.query entry, false, History.timestamp entry) calls.

Lemma recorded_more calls calls' entry :
  recorded calls entry -> recorded (calls ++ calls') entry.
Proof.
  intros (H1 & H2 & H3). repeat split; try assumption.
  apply in_or_app. now left.
Qed.

Lemma performSearch_alumniData (this : SearchManager) (query : string) :
  alumniData (fst (performSearch this query)) = alumniData this.
Proof.
  unfold performSearch.
  destruct (String.length (trim query) =? 0); [reflexivity|]. cbv zeta.
  destruct (JsMap.has (searchCache this) (normalize query)); [|reflexivity].
  destruct (JsMap.get (searchCache this) (normalize query)); reflexivity.
Qed.

Lemma performSearch_computed (this : SearchManager) (query : string)
      (results : list ScoredResult) :
  snd (performSearch this query) = Displayed results true ->
  String.length (trim query) <> 0
  /\ results = performLocalSearch (alumniData this) query.
Proof.
  unfold performSearch.
  destruct (String.length (trim query) =? 0) eqn:Hq; [discriminate|].
  apply Nat.eqb_neq in Hq. cbv zeta.
  destruct (JsMap.has (searchCache this) (normalize query)).
  - destruct (JsMap.get (searchCache this) (normalize query)); discriminate.
  - cbn [snd]. intros [= <-]. split; [assumption | reflexivity].
Qed.

Lemma runLogged_recorded (calls : list (string * bool * nat)) :
  forall (this : Session) (past : list (string * bool * nat)),
    alumniData (manager this) = data ->
    Forall (recorded past) (searchHistory this) ->
    Forall (recorded (past ++ calls)) (searchHistory (runLogged this calls)).
Proof.
  induction calls as [|[[query isLive] now] calls IH];
    intros this past Hdata Hrec.
  - cbn [runLogged fold_left]. now rewrite app_nil_r.
  - cbn [runLogged fold_left].
    fold (runLogged (fst (performSearchLogged this query isLive now)) calls).
    replace (past ++ (query, isLive, now) :: calls)
      with ((past ++ [(query, isLive, now)]) ++ calls)
      by (rewrite <- app_assoc; reflexivity).
    pose proof (performSearchLogged_refines this query isLive now) as Href.
    apply IH.
    + replace (manager (fst (performSearchLogged this query isLive now)))
        with (fst (performSearch (manager this) query))
        by (now rewrite <- Href).
      now rewrite performSearch_alumniData.
    + assert (Hold : Forall (recorded (past ++ [(query, isLive, now)]))
                            (searchHistory this)).
      { eapply Forall_impl; [|exact Hrec]. intros e. apply recorded_more. }
      rewrite performSearchLogged_history.
      destruct (snd (performSearch (manager this) query))
        as [|results []] eqn:Hout; try exact Hold.
      destruct isLive; [exact Hold|].
      apply performSearch_computed in Hout as [Hq ->].
      rewrite addToSearchHistory_shape. constructor.
      * repeat split; cbn [History.query History.resultCount
                                         History.timestamp].
        -- exact Hq.
        -- now rewrite Hdata.
        -- apply in_or_app. right. now left.
      * apply Forall_forall. intros e Hin.
        apply firstn_subset, filter_In in Hin as [Hin _].
        now apply (proj1 (Forall_forall _ _) Hold).
Qed.

End HistoryJustified.

(** X17. Over any session of [performSearch] calls that starts with an
    empty history, every history entry is justified by a call of the
    session that was not a live search: it carries that call's query,
    which is not blank, and its clock reading, and its result count is
    the number of results the local search gives for that query over the
    manager's profile list. *)
Theorem runLogged_history_justified
        (this : SearchManager) (calls : list (string * bool * nat)) :
  Forall (fun entry =>
            nonblank (History.query entry)
            /\ History.resultCount entry
               = List.length (performLocalSearch (alumniData this)
                                                 (History.query entry))
            /\ In (History.query entry, false, History.timestamp entry) calls)
         (searchHistory
            (runLogged {| manager := this; searchHistory := [] |} calls)).
Proof.
  apply (runLogged_recorded (alumniData this) calls
           {| manager := this; searchHistory := [] |} []);
    [reflexivity | constructor].
Qed.

(** X18. Over a whole session that starts with at most 20 history
    entries of distinct queries, the history keeps at most 20 entries of
    distinct queries, and the cache evolves as in the session of the
    cache model on the same queries. *)
Theorem runLogged_history_invariant
        (this : Session) (calls : list (string * bool * nat)) :
  List.length (searchHistory this) <= 20 ->
  NoDup (map History.query (searchHistory this)) ->
  List.length (searchHistory (runLogged this calls)) <= 20
  /\ NoDup (map History.query (searchHistory (runLogged this calls)))
  /\ manager (runLogged this calls)
     = run (manager this) (map (fun call => fst (fst call)) calls).
Proof.
  revert this; induction calls as [|[[query isLive] now] calls IH];
    intros this Hlen Hnodup.
  - repeat split; assumption.
  - cbn [runLogged fold_left map fst run].
    fold (runLogged (fst (performSearchLogged this query isLive now)) calls).
    fold (run (fst (performSearch (manager this) query))
              (map (fun call => fst (fst call)) calls)).
    pose proof (performSearchLogged_refines this query isLive now) as Href.
    pose proof (performSearchLogged_history this query isLive now) as Hhist.
    destruct (IH (fst (performSearchLogged this query isLive now)))
      as (H1 & H2 & H3).
    + rewrite Hhist.
      destruct (snd (performSearch (manager this) query)) as [|results []];
        try assumption.
      destruct isLive; [assumption | apply addToSearchHistory_length].
    + rewrite Hhist.
      destruct (snd (performSearch (manager this) query)) as [|results []];
        try assumption.
      destruct isLive; [assumption | now apply addToSearchHistory_NoDup].
    + repeat split; try assumption.
      rewrite H3. f_equal. rewrite <- Href. reflexivity.
Qed.

Lemma runLogged_history_invariant_witness :
  let this := {| manager := constructor [sarah]; searchHistory := [] |} in
  let calls := [("Sarah", false, 1); ("sarah", false, 2); ("chen", true, 3)] in
  List.length (searchHistory this) <= 20
  /\ NoDup (map History.query (searchHistory this))
  /\ List.length (searchHistory (runLogged this calls)) <= 20
  /\ NoDup (map History.query (searchHistory (runLogged this calls)))
  /\ manager (runLogged this calls)
     = run (manager this) (map (fun call => fst (fst call)) calls).
Proof.
  intros this calls.
  assert (H1 : List.length (searchHistory this) <= 20) by (cbn; lia).
  assert (H2 : NoDup (map History.query (searchHistory this)))
    by (cbn; constructor).
  split; [exact H1 | split; [exact H2|]].
  exact (runLogged_history_invariant this calls H1 H2).
Defined.

(** ** Round trip through the cache *)

Section CacheLookup.

Context {V : Type}.

Lemma get_set_same (m : JsMap.t V) (k : string) (v : V) :
  JsMap.get (JsMap.set m k v) k = Some v.
Proof.
  unfold JsMap.get. induction m as [|e m IH]; cbn [JsMap.set find fst].
  - now rewrite String.eqb_refl.
  - destruct (String.eqb (fst e) k) eqn:E; cbn [find fst].
    + now rewrite String.eqb_refl.
    + rewrite E. exact IH.
Qed.

Lemma get_set_other (m : JsMap.t V) (k k' : string) (v : V) :
  k' <> k -> JsMap.get (JsMap.set m k v) k' = JsMap.get m k'.
Proof.
  intros Hne. unfold JsMap.get.
  induction m as [|e m IH]; cbn [JsMap.set find fst].
  - assert (E : String.eqb k k' = false) by (apply String.eqb_neq; congruence).
    now rewrite E.
  - destruct (String.eqb (fst e) k) eqn:E; cbn [find fst].
    + apply String.eqb_eq in E.
      assert (E1 : String.eqb k k' = false)
        by (apply String.eqb_neq; congruence).
      assert (E2 : String.eqb (fst e) k' = false)
        by (apply String.eqb_neq; congruence).
      now rewrite E1, E2.
    + destruct (String.eqb (fst e) k'); [reflexivity | exact IH].
Qed.

Lemma get_delete_other (m : JsMap.t V) (k k' : string) :
  k' <> k -> JsMap.get (JsMap.delete m k) k' = JsMap.get m k'.
Proof.
  intros Hne. unfold JsMap.get, JsMap.delete.
  induction m as [|e m IH]; cbn [filter find]; [reflexivity|].
  destruct (String.eqb (fst e) k) eqn:E; cbn [negb find].
  - apply String.eqb_eq in E.
    assert (E2 : String.eqb (fst e) k' = false)
      by (apply String.eqb_neq; congruence).
    rewrite E2. exact IH.
  - destruct (String.eqb (fst e) k'); [reflexivity | exact IH].
Qed.

End CacheLookup.

(** X19. What [cacheSearchResults] stores under a key is what a lookup
    of that key returns, and every other key keeps its value, except the
    first key when the cache was full. *)
Theorem cacheSearchResults_lookup
        (this : SearchManager) (query : string) (results : list ScoredResult) :
  JsMap.get (searchCache (cacheSearchResults this query results)) query
  = Some results
  /\ forall other,
      other <> query ->
      (maxCacheSize this <=? JsMap.size (searchCache this)) = false
      \/ JsMap.first_key (searchCache this) <> Some other ->
      JsMap.get (searchCache (cacheSearchResults this query results)) other
      = JsMap.get (searchCache this) other.
Proof.
  unfold cacheSearchResults. cbn [searchCache]. split.
  - apply get_set_same.
  - intros other Hne Hkeep. rewrite (get_set_other _ _ _ _ Hne).
    destruct (maxCacheSize this <=? JsMap.size (searchCache this));
      [|reflexivity].
    destruct (JsMap.first_key (searchCache this)) as [firstKey|];
      [|reflexivity].
    apply get_delete_other. destruct Hkeep as [H|H]; congruence.
Qed.

(** ** Ranking of an AI answer *)

Section RankFacts.

Variable query : string.

Lemma rank_profiles (l : list Alumni) (index : nat) :
  map profile (rank_from index l query) = l.
Proof.
  revert index; induction l as [|a l IH]; intros index; cbn; [reflexivity|].
  now rewrite IH.
Qed.

Lemma rank_length (l : list Alumni) (index : nat) :
  List.length (rank_from index l query) = List.length l.
Proof. rewrite <- (rank_profiles l index) at 2. now rewrite length_map. Qed.

Lemma confidence_range (index : nat) :
  (0.1 <= Qmax (0.9 - Qnat index * 0.1) 0.1 <= 0.9)%Q.
Proof.
  pose proof (Qnat_nonneg index). split.
  - apply Q.le_max_r.
  - apply Q.max_lub; lra.
Qed.

Lemma confidence_antitone (i j : nat) :
  i <= j ->
  (Qmax (0.9 - Qnat j * 0.1) 0.1 <= Qmax (0.9 - Qnat i * 0.1) 0.1)%Q.
Proof.
  intros H. pose proof (Qnat_le _ _ H).
  apply Q.max_le_compat_r. lra.
Qed.

Lemma confidence_floor (index : nat) :
  8 <= index -> (Qmax (0.9 - Qnat index * 0.1) 0.1 == 0.1)%Q.
Proof.
  intros H. pose proof (Qnat_le _ _ H) as Hq.
  change (Qnat 8) with 8%Q in Hq. apply Q.max_r. lra.
Qed.

Lemma rank_below (l : list Alumni) (index from : nat) :
  from <= index ->
  Forall (fun r => (searchRelevance r
                    <= Qmax (0.9 - Qnat from * 0.1) 0.1)%Q)
         (rank_from index l query).
Proof.
  revert index; induction l as [|a l IH]; intros index H; cbn [rank_from];
    constructor.
  - cbn [searchRelevance]. now apply confidence_antitone.
  - apply IH. lia.
Qed.

Lemma rank_sorted (l : list Alumni) (index : nat) :
  StronglySorted (fun a b => (searchRelevance b <= searchRelevance a)%Q)
                 (rank_from index l query).
Proof.
  revert index; induction l as [|a l IH]; intros index; cbn [rank_from];
    constructor; [apply IH|].
  cbn [searchRelevance]. apply rank_below. lia.
Qed.

Lemma rank_range (l : list Alumni) (index : nat) :
  Forall (fun r => (0.1 <= searchRelevance r <= 0.9)%Q /\ searchQuery r = query)
         (rank_from index l query).
Proof.
  revert index; induction l as [|a l IH]; intros index; cbn [rank_from];
    constructor; [|apply IH].
  cbn [searchRelevance searchQuery]. split; [apply confidence_range|reflexivity].
Qed.

Lemma rank_nth (l : list Alumni) (index k : nat) (r : ScoredResult) :
  nth_error (rank_from index l query) k = Some r ->
  searchRelevance r = Qmax (0.9 - Qnat (index + k) * 0.1) 0.1.
Proof.
  revert index k; induction l as [|a l IH]; intros index k H.
  - destruct k; discriminate.
  - destruct k as [|k]; cbn in H.
    + injection H as <-. cbn [searchRelevance]. now rewrite Nat.add_0_r.
    + apply IH in H. rewrite H. now rewrite Nat.add_succ_r.
Qed.

End RankFacts.

(** X20. For an answer that parses to an array, [parseAISearchResults]
    returns the profiles whose id is in the array, in the order of the
    profile list, with relevances between 0.1 and 0.9 that never increase
    along the list; from the ninth result on the relevance is exactly
    0.1. *)
Theorem parseAISearchResults_ranking
        (alumniData : list Alumni) (ids : list string) (query : string) :
  map profile (parseAISearchResults alumniData (Some ids) query)
  = filter (fun alumni =>
              existsb (fun id => String.eqb id (alumni_id alumni)) ids)
           alumniData
  /\ Forall (fun r => (0.1 <= searchRelevance r <= 0.9)%Q
                      /\ searchQuery r = query)
            (parseAISearchResults alumniData (Some ids) query)
  /\ StronglySorted (fun a b => (searchRelevance b <= searchRelevance a)%Q)
                    (parseAISearchResults alumniData (Some ids) query)
  /\ forall k r,
      8 <= k ->
      nth_error (parseAISearchResults alumniData (Some ids) query) k = Some r ->
      (searchRelevance r == 0.1)%Q.
Proof.
  unfold parseAISearchResults. cbv zeta.
  split; [apply rank_profiles|split; [apply rank_range|split]].
  - apply rank_sorted.
  - intros k r Hk Hr. apply rank_nth in Hr. rewrite Hr.
    apply confidence_floor. lia.
Qed.

(** X21. [parseAISearchResults] uses the array of ids only as a set: two
    arrays with the same members, in whatever order and multiplicity,
    give the same result. *)
Theorem parseAISearchResults_ignores_order
        (alumniData : list Alumni) (ids ids' : list string) (query : string) :
  (forall id, In id ids <-> In id ids') ->
  parseAISearchResults alumniData (Some ids) query
  = parseAISearchResults alumniData (Some ids') query.
Proof.
  intros Hsame. unfold parseAISearchResults. cbv zeta. f_equal.
  apply filter_ext. intros alumni.
  destruct (existsb (fun id => String.eqb id (alumni_id alumni)) ids) eqn:E,
           (existsb (fun id => String.eqb id (alumni_id alumni)) ids') eqn:E';
    try reflexivity.
  - apply existsb_exists in E as (id & Hin & Heq).
    assert (E2 : existsb (fun id => String.eqb id (alumni_id alumni)) ids'
                 = true)
      by (apply existsb_exists; exists id; split; [now apply Hsame | exact Heq]).
    congruence.
  - apply existsb_exists in E' as (id & Hin & Heq).
    assert (E2 : existsb (fun id => String.eqb id (alumni_id alumni)) ids
                 = true)
      by (apply existsb_exists; exists id; split; [now apply Hsame | exact Heq]).
    congruence.
Qed.

Lemma parseAISearchResults_ignores_order_witness :
  (forall id, In id ["demo_founder"; "demo_001"]
              <-> In id ["demo_001"; "demo_founder"; "demo_001"])
  /\ parseAISearchResults [sarah; founder_only]
                          (Some ["demo_founder"; "demo_001"]) "founders"
     = parseAISearchResults [sarah; founder_only]
                            (Some ["demo_001"; "demo_founder"; "demo_001"])
                            "founders".
Proof.
  assert (H : forall id, In id ["demo_founder"; "demo_001"]
                         <-> In id ["demo_001"; "demo_founder"; "demo_001"])
    by (intros id; simpl; tauto).
  split; [exact H|].
  exact (parseAISearchResults_ignores_order
           [sarah; founder_only] _ _ "founders" H).
Defined.

(** ** Keyboard navigation *)

Section KeyFacts.

Lemma item_at_in_range (suggestions : list (option string)) (index : Z) :
  (0 <= index < Z.of_nat (List.length suggestions))%Z ->
  exists item, item_at suggestions index = Some item.
Proof.
  intros H. unfold item_at.
  assert (E : (index <? 0)%Z = false) by (apply Z.ltb_ge; lia).
  rewrite E.
  destruct (nth_error suggestions (Z.to_nat index)) eqn:En; [eauto|].
  apply nth_error_None in En. lia.
Qed.

Lemma item_at_out_of_range (suggestions : list (option string)) (index : Z) :
  (Z.of_nat (List.length suggestions) <= index)%Z ->
  item_at suggestions index = None.
Proof.
  intros H. unfold item_at. destruct (index <? 0)%Z; [reflexivity|].
  apply nth_error_None. lia.
Qed.

End KeyFacts.

(** X22. Keyboard navigation keeps a selection that is within the
    suggestion list (or none, -1) within it and never fails; Escape
    always ends with no selection, and Enter hands a text to
    [performSearch] only if it is the non-empty text of the selected
    item, ending with no selection.  When the selection lies more than
    one place past the end of the list, ArrowUp fails. *)
Theorem handleSearchKeydown_selection
        (index : Z) (suggestions : list (option string)) (key : Key) :
  ((-1 <= index < Z.of_nat (List.length suggestions))%Z ->
   threw (handleSearchKeydown index suggestions key) = false
   /\ (-1 <= selectedSuggestionIndex
               (handleSearchKeydown index suggestions key)
       < Z.of_nat (List.length suggestions))%Z)
  /\ (suggestions <> [] ->
      selectedSuggestionIndex (handleSearchKeydown index suggestions Escape)
      = (-1)%Z)
  /\ (forall text,
         searched (handleSearchKeydown index suggestions key) = Some text ->
         key = Enter
         /\ text <> ""
         /\ item_at suggestions index = Some (Some text)
         /\ selectedSuggestionIndex
              (handleSearchKeydown index suggestions key) = (-1)%Z)
  /\ (suggestions <> [] ->
      (Z.of_nat (List.length suggestions) < index)%Z ->
      threw (handleSearchKeydown index suggestions ArrowUp) = true).
Proof.
  set (n := Z.of_nat (List.length suggestions)).
  assert (Hn : suggestions <> [] -> (n =? 0)%Z = false).
  { intros H. apply Z.eqb_neq. subst n.
    destruct suggestions; [congruence | cbn [List.length]; lia]. }
  split; [|split; [|split]].
  - intros Hrange. unfold handleSearchKeydown. fold n. cbv zeta.
    destruct (n =? 0)%Z eqn:En; [cbn; split; [reflexivity | lia]|].
    apply Z.eqb_neq in En.
    destruct key; cbn [threw selectedSuggestionIndex];
      try (split; [reflexivity | lia]).
    + unfold updateSuggestionSelection.
      destruct (0 <=? Z.min (index + 1) (n - 1))%Z eqn:E0;
        [|cbn; split; [reflexivity | lia]].
      apply Z.leb_le in E0.
      destruct (item_at_in_range suggestions (Z.min (index + 1) (n - 1)))
        as [item ->]; [fold n; lia|].
      cbn. split; [reflexivity | lia].
    + unfold updateSuggestionSelection.
      destruct (0 <=? Z.max (index - 1) (-1))%Z eqn:E0;
        [|cbn; split; [reflexivity | lia]].
      apply Z.leb_le in E0.
      destruct (item_at_in_range suggestions (Z.max (index - 1) (-1)))
        as [item ->]; [fold n; lia|].
      cbn. split; [reflexivity | lia].
    + destruct (0 <=? index)%Z eqn:E0; [|cbn; split; [reflexivity | lia]].
      apply Z.leb_le in E0.
      destruct (item_at_in_range suggestions index) as [item ->];
        [fold n; lia|].
      unfold selectSuggestion. destruct (truthy item); cbn;
        split; try reflexivity; lia.
  - intros Hne. unfold handleSearchKeydown. fold n. cbv zeta.
    rewrite (Hn Hne). reflexivity.
  - intros text Hs. unfold handleSearchKeydown in *. fold n in Hs |- *.
    cbv zeta in *.
    destruct (n =? 0)%Z; [discriminate|].
    destruct key; cbn [searched] in Hs; try discriminate.
    + unfold updateSuggestionSelection in Hs.
      destruct (0 <=? _)%Z; [destruct (item_at _ _)|]; discriminate.
    + unfold updateSuggestionSelection in Hs.
      destruct (0 <=? _)%Z; [destruct (item_at _ _)|]; discriminate.
    + destruct (0 <=? index)%Z; [|discriminate].
      destruct (item_at suggestions index) as [item|]; [|discriminate].
      unfold selectSuggestion in *.
      destruct (truthy item) eqn:Et; [|discriminate].
      cbn in Hs. subst item. cbn.
      repeat split. intros ->. discriminate.
  - intros Hne Hfar. unfold handleSearchKeydown. fold n. cbv zeta.
    rewrite (Hn Hne). unfold updateSuggestionSelection.
    assert (E0 : (0 <=? Z.max (index - 1) (-1))%Z = true)
      by (apply Z.leb_le; fold n in Hfar; lia).
    rewrite E0, item_at_out_of_range; [reflexivity|]. fold n. lia.
Qed.

Lemma handleSearchKeydown_selection_witness :
  (-1 <= 1 < Z.of_nat (List.length [Some "Sarah Chen"; Some "Alumni at X"]))%Z
  /\ threw (handleSearchKeydown 1 [Some "Sarah Chen"; Some "Alumni at X"]
                                ArrowDown) = false
  /\ (-1 <= selectedSuggestionIndex
              (handleSearchKeydown 1 [Some "Sarah Chen"; Some "Alumni at X"]
                                   ArrowDown)
      < Z.of_nat (List.length [Some "Sarah Chen"; Some "Alumni at X"]))%Z.
Proof.
  assert (H : (-1 <= 1 < Z.of_nat (List.length [Some "Sarah Chen";
                                                Some "Alumni at X"]))%Z)
    by (cbn; lia).
  split; [exact H|].
  exact (proj1 (handleSearchKeydown_selection
                  1 [Some "Sarah Chen"; Some "Alumni at X"] ArrowDown) H).
Defined.

(** ** Letter case of the query *)

Section QueryCase.

Variable relabel : ScoredResult -> ScoredResult.
Hypothesis relabel_relevance :
  forall r, searchRelevance (relabel r) = searchRelevance r.

Lemma insert_relabel (x : ScoredResult) (l : list ScoredResult) :
  insert byRelevanceDesc (relabel x) (map relabel l)
  = map relabel (insert byRelevanceDesc x l).
Proof.
  induction l as [|y l IH]; [reflexivity|].
  cbn [map insert]. unfold byRelevanceDesc at 1 3.
  rewrite !relabel_relevance.
  destruct (Qle_bool (searchRelevance y - searchRelevance x) 0);
    [reflexivity|].
  cbn [map]. now rewrite IH.
Qed.

Lemma sort_relabel (l : list ScoredResult) :
  sort byRelevanceDesc (map relabel l) = map relabel (sort byRelevanceDesc l).
Proof.
  induction l as [|x l IH]; [reflexivity|].
  cbn [map sort]. now rewrite IH, insert_relabel.
Qed.

End QueryCase.

Lemma score_case_insensitive (alumni : Alumni) (query query' : string) :
  toLowerCase query = toLowerCase query' ->
  calculateRelevanceScore alumni (extractSearchTerms query) query
  = calculateRelevanceScore alumni (extractSearchTerms query') query'.
Proof.
  intros H.
  assert (Ht : extractSearchTerms query = extractSearchTerms query')
    by (unfold extractSearchTerms; now rewrite H).
  rewrite Ht. unfold calculateRelevanceScore, rawScore, score_exact.
  now rewrite H.
Qed.

(** X23. The local search does not depend on the letter case of the
    query: two queries with the same lowercase form give the same
    profiles with the same relevances in the same order; the results
    differ only in the query text they carry. *)
Theorem performLocalSearch_case_insensitive
        (alumniData : list Alumni) (query query' : string) :
  toLowerCase query = toLowerCase query' ->
  performLocalSearch alumniData query'
  = map (fun r => {| profile := profile r;
                     searchRelevance := searchRelevance r;
                     searchQuery := query' |})
        (performLocalSearch alumniData query).
Proof.
  intros H. rewrite !performLocalSearch_unfold.
  rewrite <- sort_relabel by reflexivity. f_equal.
  rewrite map_map. cbn [profile searchRelevance].
  rewrite (filter_ext
             (fun a => Qgtb (calculateRelevanceScore
                               a (extractSearchTerms query') query') 0.1%Q)
             (fun a => Qgtb (calculateRelevanceScore
                               a (extractSearchTerms query) query) 0.1%Q)).
  - apply map_ext. intros a.
    now rewrite (score_case_insensitive a query query' H).
  - intros a. now rewrite (score_case_insensitive a query query' H).
Qed.

Lemma performLocalSearch_case_insensitive_witness :
  toLowerCase "Sarah" = toLowerCase "SARAH"
  /\ performLocalSearch [sarah; founder_only] "SARAH"
     = map (fun r => {| profile := profile r;
                        searchRelevance := searchRelevance r;
                        searchQuery := "SARAH" |})
           (performLocalSearch [sarah; founder_only] "Sarah").
Proof.
  split; [reflexivity|].
  exact (performLocalSearch_case_insensitive
           [sarah; founder_only] "Sarah" "SARAH" eq_refl).
Defined.
